(** * crewAI: knowledge-source chunking, the cache tool, the prompt builder
      and the text-to-model converter

    A shallow embedding of
    - [crewai/knowledge/source/base_knowledge_source.py]
    - [crewai/tools/cache_tools/cache_tools.py]
    - [crewai/utilities/prompts.py]
    - [crewai/memory/storage/base_rag_storage.py]
    together with the Python built-ins these files call ([range], slicing,
    [str.split], [str.strip], [str.replace], [str.join]), and a model of
    [Converter.to_pydantic] and [generate_model_description] of
    [crewai/utilities/converter.py], as far as the spec and
    [tests/utilities/test_converter.py] document them. *)

From Stdlib Require Import String Ascii.
From Stdlib Require Import ZArith NArith List Bool Lia.
Import ListNotations.

Set Implicit Arguments.

(* ================================================================== *)
(** * Python values and built-ins *)
(* ================================================================== *)

Module Py.

(** A Python [str] is a sequence of Unicode code points. *)
Definition char := N.
Definition str := list char.

(** ASCII literals of the source, written as Rocq strings. *)
Definition lit (s : string) : str := map N_of_ascii (list_ascii_of_string s).
Arguments lit s%_string.

(** Code points that cannot be written inside a Rocq string literal. *)
Definition nl : char := 10%N.   (* "\n" *)
Definition dq : char := 34%N.   (* the double quote *)

(** Exceptions that the modelled code raises itself. *)
Inductive exn : Type :=
| IndexError
| ValueError (msg : str)
| ConverterError (msg : str).

Inductive result (A : Type) : Type :=
| Ok (a : A)
| Raise (e : exn).
Arguments Ok {A} a.
Arguments Raise {A} e.

Definition bind {A B} (r : result A) (k : A -> result B) : result B :=
  match r with
  | Ok a => k a
  | Raise e => Raise e
  end.

Notation "x <- r ;; k" := (bind r (fun x => k))
  (at level 61, r at next level, right associativity).

Definition len {A} (s : list A) : Z := Z.of_nat (length s).

(** ** [range(start, stop, step)]

    CPython computes the length of a range once ([get_len_of_range]) and the
    k-th element as [start + k * step]; a zero step is a [ValueError]. *)
Definition get_len_of_range (lo hi step : Z) : Z :=
  if (0 <? step)%Z && (lo <? hi)%Z then (1 + (hi - 1 - lo) / step)%Z else 0%Z.

Definition range (start stop step : Z) : result (list Z) :=
  if (step =? 0)%Z then Raise (ValueError (lit "range() arg 3 must not be zero"))
  else
    let n := if (0 <? step)%Z then get_len_of_range start stop step
             else get_len_of_range stop start (- step) in
    Ok (map (fun k => (start + Z.of_nat k * step)%Z) (seq 0 (Z.to_nat n))).

(** ** Slicing [s[i:j]]

    A negative bound counts from the end; both bounds are then clamped to
    [0 .. len s] ([PySlice_AdjustIndices]). *)
Definition adjust_index (length i : Z) : Z :=
  if (i <? 0)%Z then Z.max 0 (i + length) else Z.min i length.

Definition slice_bounds {A} (s : list A) (i j : Z) : Z * Z :=
  (adjust_index (len s) i, adjust_index (len s) j).

Definition slice {A} (s : list A) (i j : Z) : list A :=
  let '(lo, hi) := slice_bounds s i j in
  firstn (Z.to_nat (hi - lo)) (skipn (Z.to_nat lo) s).

(** ** Indexing [l[k]] with a non-negative literal index. *)
Definition index {A} (l : list A) (k : nat) : result A :=
  match nth_error l k with
  | Some a => Ok a
  | None => Raise IndexError
  end.

(** ** Searching a substring

    [strip_prefix p s] is [Some r] when [s = p ++ r], the test that
    [str.startswith] makes; [find_sep sep s] cuts [s] around the leftmost
    occurrence of [sep], the search shared by [split], [replace] and [in]. *)
Fixpoint strip_prefix (p s : str) : option str :=
  match p, s with
  | [], _ => Some s
  | _ :: _, [] => None
  | a :: p', b :: s' => if N.eqb a b then strip_prefix p' s' else None
  end.

Fixpoint find_sep (sep s : str) : option (str * str) :=
  match strip_prefix sep s with
  | Some rest => Some ([], rest)
  | None =>
      match s with
      | [] => None
      | c :: s' =>
          match find_sep sep s' with
          | Some (before, rest) => Some (c :: before, rest)
          | None => None
          end
      end
  end.

(** [sep in s] *)
Definition contains (sep s : str) : bool :=
  match find_sep sep s with
  | Some _ => true
  | None => false
  end.

(** ** [s.split(sep)] for a non-empty separator

    The pieces between the non-overlapping occurrences of [sep], found from
    left to right.  Every round consumes at least [length sep] characters,
    so [S (length s)] rounds always suffice (lemma [split_unfold]).  The
    separators of the modelled sources are non-empty literals. *)
Fixpoint split_fuel (fuel : nat) (sep s : str) : list str :=
  match fuel with
  | O => [s]
  | S fuel' =>
      match find_sep sep s with
      | None => [s]
      | Some (before, rest) => before :: split_fuel fuel' sep rest
      end
  end.

Definition split (sep s : str) : list str := split_fuel (S (length s)) sep s.

(** ** [sep.join(parts)] *)
Fixpoint join (sep : str) (parts : list str) : str :=
  match parts with
  | [] => []
  | [p] => p
  | p :: rest => p ++ sep ++ join sep rest
  end.

(** ** [s.replace(old, new)] for a non-empty [old]: every non-overlapping
    occurrence of [old], from left to right, gives way to [new]. *)
Fixpoint replace_fuel (fuel : nat) (old new s : str) : str :=
  match fuel with
  | O => s
  | S fuel' =>
      match find_sep old s with
      | None => s
      | Some (before, rest) => before ++ new ++ replace_fuel fuel' old new rest
      end
  end.

Definition replace (old new s : str) : str :=
  replace_fuel (S (length s)) old new s.

(** ** [s.strip()]: the code points for which [str.isspace] holds are
    removed from both ends. *)
Definition isspace (c : char) : bool :=
  ((9 <=? c) && (c <=? 13) || (28 <=? c) && (c <=? 32)
   || (c =? 133) || (c =? 160) || (c =? 5760)
   || (8192 <=? c) && (c <=? 8202)
   || (c =? 8232) || (c =? 8233) || (c =? 8239) || (c =? 8287)
   || (c =? 12288))%N.

Fixpoint lstrip (s : str) : str :=
  match s with
  | [] => []
  | c :: s' => if isspace c then lstrip s' else s
  end.

Definition rstrip (s : str) : str := rev (lstrip (rev s)).

Definition strip (s : str) : str := rstrip (lstrip s).

Definition str_eqb (a b : str) : bool :=
  if list_eq_dec N.eq_dec a b then true else false.

(** Truth value of an [Optional[str]]: [None] and the empty string are
    false. *)
Definition str_truth (o : option str) : bool :=
  match o with
  | Some (_ :: _) => true
  | _ => false
  end.

End Py.
Import Py.

(* ================================================================== *)
(** * Knowledge source: [BaseKnowledgeSource] *)
(* ================================================================== *)

Section KnowledgeSource.

(** [KnowledgeStorage] is defined outside the modelled files: its instances, the state
    of the backend they write to, the errors that backend raises, the
    effect of [save] and the truth value of an instance are parameters. *)
Variable KnowledgeStorage : Type.
Variable Backend : Type.
Variable StorageError : Type.
Variable storage_save :
  KnowledgeStorage -> list str -> Backend -> Backend + StorageError.
Variable storage_truth : KnowledgeStorage -> bool.

Record BaseKnowledgeSource : Type := {
  chunk_size : Z;
  chunk_overlap : Z;
  chunks : list str;
  storage : option KnowledgeStorage
}.

(** [_chunk_text]: the list comprehension over
    [range(0, len(text), chunk_size - chunk_overlap)]. *)
Definition _chunk_text (self : BaseKnowledgeSource) (text : str)
  : result (list str) :=
  starts <- range 0 (len text) (chunk_size self - chunk_overlap self) ;;
  Ok (map (fun i => slice text i (i + chunk_size self)) starts).

(** Outcome of [_save_documents]: the backend after [storage.save], an error
    that [storage.save] raised, or the method's own exception. *)
Inductive save_outcome : Type :=
| Saved (b : Backend)
| StorageRaised (e : StorageError)
| OwnError (e : exn).

(** [if self.storage:] tests the truth value of the field: [None] is false,
    an instance has the truth value its class gives it. *)
Definition _save_documents (self : BaseKnowledgeSource) (b : Backend)
  : save_outcome :=
  match storage self with
  | Some st =>
      if storage_truth st then
        match storage_save st (chunks self) b with
        | inl b' => Saved b'
        | inr e => StorageRaised e
        end
      else OwnError (ValueError (lit "No storage found to save documents."))
  | None => OwnError (ValueError (lit "No storage found to save documents."))
  end.

End KnowledgeSource.

Arguments Saved {Backend StorageError} b.
Arguments StorageRaised {Backend StorageError} e.
Arguments OwnError {Backend StorageError} e.

(* ================================================================== *)
(** * Cache tool: [CacheTools] *)
(* ================================================================== *)

Section CacheTools.

(** [CacheHandler] is defined outside the modelled files: the handler and what its
    [read(tool, input)] returns are parameters. *)
Variable CacheHandler : Type.
Variable Value : Type.
Variable read : CacheHandler -> str -> str -> Value.

Record CacheTools : Type := {
  name : str;
  cache_handler : CacheHandler
}.

Definition hit_cache (self : CacheTools) (key : str) : result Value :=
  let split_ := split (lit "tool:") key in
  seg <- index split_ 1 ;;
  tool_raw <- index (split (lit "|input:") seg) 0 ;;
  let tool := strip tool_raw in
  seg' <- index split_ 1 ;;
  input_raw <- index (split (lit "|input:") seg') 1 ;;
  let tool_input := strip input_raw in
  Ok (read (cache_handler self) tool tool_input).

End CacheTools.

(* ================================================================== *)
(** * Prompt builder: [Prompts] *)
(* ================================================================== *)

Section Prompts.

(** [I18N.slice] is defined outside the modelled files: the table of template slices is
    a parameter. *)
Variable i18n_slice : str -> str.

Record Agent : Type := {
  goal : str;
  role : str;
  backstory : str
}.

(** The value of [prompt] when the [if]/[else] of [_build_prompt] is left,
    before the three placeholder substitutions. *)
Definition _assemble_prompt (components : list str)
    (system_template prompt_template response_template : option str) : str :=
  match system_template, prompt_template with
  | Some st, Some pt =>
      if negb (str_truth system_template) || negb (str_truth prompt_template)
      then join [] (map i18n_slice components)
      else
        let prompt_parts :=
          map i18n_slice
              (filter (fun c => negb (str_eqb c (lit "task"))) components) in
        let system := replace (lit "{{ .System }}") (join [] prompt_parts) st in
        let prompt :=
          replace (lit "{{ .Prompt }}")
                  (join [] (map (fun c => [c]) (i18n_slice (lit "task")))) pt in
        match response_template with
        | Some rt =>
            if str_truth response_template then
              let response := nth 0 (split (lit "{{ .Response }}") rt) [] in
              system ++ [nl] ++ prompt ++ [nl] ++ response
            else system ++ [nl] ++ prompt
        | None => system ++ [nl] ++ prompt
        end
  | _, _ => join [] (map i18n_slice components)
  end.

Definition _build_prompt (agent : Agent) (components : list str)
    (system_template prompt_template response_template : option str) : str :=
  let prompt :=
    _assemble_prompt components system_template prompt_template
                     response_template in
  replace (lit "{backstory}") (backstory agent)
    (replace (lit "{role}") (role agent)
       (replace (lit "{goal}") (goal agent) prompt)).

End Prompts.

(* ================================================================== *)
(** * Converter: [crewai/utilities/converter.py] *)
(* ================================================================== *)

(** Modelled from the spec: [generate_model_description] of
    [crewai/utilities/converter.py], which is not among the available sources.  The
    spec asks that Optional, List, Dict, Union and Enum fields serialize to
    their literal documented string forms; the forms and the braces-style
    layout are the ones documented by [tests/utilities/test_converter.py]
    (lines 291-330 and 607-613).

    A field annotation is the object that Python builds for it:
    - a class that is not a model ([str], [int], an [Enum] class, and
      [NoneType], the class of [None]), known by its [__name__];
    - a model class with its fields;
    - a generic alias of [list] or of [dict] ([List[int]], [Dict[str, int]]);
    - a [typing.Union] with its members: [Optional[X]] is [Union[X, None]],
      and so is [X | None] when [X] is a [typing] alias;
    - a [types.UnionType] of built-in classes, what [int | str | None] is.

    A [typing.Union] with one member other than [NoneType] is documented as
    [Optional[...]]; no test documents a [typing.Union] with none or several
    such members, and the description is then left undetermined ([None]). *)
#[local] Unset Elimination Schemes.
Inductive annotation : Type :=
| TClass (name : str)
| TModel (fields : list (str * annotation))
| TList (t : annotation)
| TDict (k v : annotation)
| TUnion (args : list annotation)
| TUnionType (names : list str).
#[local] Set Elimination Schemes.

Definition NoneType : annotation := TClass (lit "NoneType").

(** [Optional[t]] for a [t] that is neither a union nor [NoneType]. *)
Definition Optional_ (t : annotation) : annotation := TUnion [t; NoneType].

(** [arg is type(None)] *)
Definition is_none (t : annotation) : bool :=
  match t with
  | TClass name => str_eqb name (lit "NoneType")
  | _ => false
  end.

(** How a built-in class is written inside [str(X | Y)]. *)
Definition union_member (name : str) : str :=
  if str_eqb name (lit "NoneType") then lit "None" else name.

Fixpoint collect {A} (l : list (option A)) : option (list A) :=
  match l with
  | [] => Some []
  | Some a :: l' =>
      match collect l' with
      | Some r => Some (a :: r)
      | None => None
      end
  | None :: _ => None
  end.

(** The braces-style layout around the lines of the fields. *)
Definition braces (lines : list str) : str :=
  lit "{" ++ [nl] ++ lit "  "
  ++ join (lit "," ++ [nl] ++ lit "  ") lines
  ++ [nl] ++ lit "}".

Definition field_line (name description : str) : str :=
  [dq] ++ name ++ [dq] ++ lit ": " ++ description.

Fixpoint describe_field (t : annotation) : option str :=
  match t with
  | TUnion args =>
      let described := map (fun a => (is_none a, describe_field a)) args in
      match filter (fun p => negb (fst p)) described with
      | [(_, Some d)] => Some (lit "Optional[" ++ d ++ lit "]")
      | _ => None
      end
  | TList t' =>
      match describe_field t' with
      | Some d => Some (lit "List[" ++ d ++ lit "]")
      | None => None
      end
  | TDict k v =>
      match describe_field k, describe_field v with
      | Some dk, Some dv => Some (lit "Dict[" ++ dk ++ lit ", " ++ dv ++ lit "]")
      | _, _ => None
      end
  | TModel fields =>
      match collect (map (fun f =>
                            match describe_field (snd f) with
                            | Some d => Some (field_line (fst f) d)
                            | None => None
                            end) fields) with
      | Some lines => Some (braces lines)
      | None => None
      end
  | TClass name => Some name
  | TUnionType names => Some (join (lit " | ") (map union_member names))
  end.

Definition generate_model_description (fields : list (str * annotation))
  : option str :=
  describe_field (TModel fields).

Section Converter.

(** The schema classes, their instances and the two parsers belong to
    pydantic; the LLM backend is an external service whose state is threaded
    through every call. *)
Variable Schema : Type.
Variable Model : Type.
Variable LLM : Type.
Variable llm_call : LLM -> str -> str -> str * LLM.
Variable supports_function_calling : LLM -> bool.
Variable instructor_to_pydantic : LLM -> Schema -> str -> result Model * LLM.
Variable model_validate_json : Schema -> str -> option Model.
Variable extract_json : Schema -> str -> option Model.
Variable failure_reason : Schema -> str -> str.

Record Converter : Type := {
  llm : LLM;
  text : str;
  model : Schema;
  instructions : str;
  max_attempts : nat
}.

(** What a run of [to_pydantic] leaves behind: its result, the backend, and
    the raw text of every completion call, oldest first. *)
Record run : Type := {
  outcome : result Model;
  llm_after : LLM;
  raw_outputs : list str
}.

(** The message of the error: the phrase that the tests look for
    ([tests/utilities/test_converter.py], lines 446 and 580), followed by
    the failure reason. *)
Definition conversion_error (reason : str) : exn :=
  ConverterError
    (lit "Failed to convert text into a Pydantic model" ++ reason).

(** Modelled from the spec: [Converter.to_pydantic] of
    [crewai/utilities/converter.py], which is not among the available sources
    (section 4.1).  One attempt issues a plain-text completion call, parses
    the answer strictly against the schema, and on failure tries the lenient
    extraction of the first JSON-like substring; when both fail the call is
    issued again while attempts remain, and otherwise a conversion error
    is raised.  The spec has the error carry the last raw output and the
    failure reason; the tests fix only the opening phrase of its message.
    The message is modelled as that phrase followed by the failure reason
    of the last answer, a text that the parsers give and that may or may
    not quote the answer.
    [retries] is the number of attempts left after this one. *)
Fixpoint attempt (self : Converter) (retries : nat) (l : LLM) (log : list str)
  : run :=
  let '(raw, l') := llm_call l (instructions self) (text self) in
  let log' := log ++ [raw] in
  match model_validate_json (model self) raw with
  | Some m => {| outcome := Ok m; llm_after := l'; raw_outputs := log' |}
  | None =>
      match extract_json (model self) raw with
      | Some m => {| outcome := Ok m; llm_after := l'; raw_outputs := log' |}
      | None =>
          match retries with
          | O => {| outcome :=
                      Raise (conversion_error
                               (failure_reason (model self) raw));
                    llm_after := l'; raw_outputs := log' |}
          | S retries' => attempt self retries' l' log'
          end
      end
  end.

Definition to_pydantic (self : Converter) : run :=
  if supports_function_calling (llm self) then
    let '(r, l') :=
      instructor_to_pydantic (llm self) (model self) (text self) in
    {| outcome := r; llm_after := l'; raw_outputs := [] |}
  else attempt self (max_attempts self - 1) (llm self) [].

End Converter.

(* ================================================================== *)
(** * Prompt builder: [Prompts.task_execution] *)
(* ================================================================== *)

(** A [dict[str, str]] keeps its entries in insertion order; [d.get(k)]. *)
Definition dict_get (k : str) (d : list (str * str)) : option str :=
  match find (fun e => str_eqb (fst e) k) d with
  | Some e => Some (snd e)
  | None => None
  end.

Definition dict_keys (d : list (str * str)) : list str := map fst d.

(** Truth value of an [Optional[bool]]. *)
Definition bool_truth (o : option bool) : bool :=
  match o with
  | Some true => true
  | _ => false
  end.

Section TaskExecution.

Variable i18n_slice : str -> str.

Record Prompts : Type := {
  has_tools : bool;
  system_template : option str;
  prompt_template : option str;
  response_template : option str;
  use_system_prompt : option bool;
  agent : Agent
}.

Definition task_execution (self : Prompts) : list (str * str) :=
  let slices := [lit "role_playing"] in
  let slices :=
    if has_tools self then slices ++ [lit "tools"]
    else slices ++ [lit "no_tools"] in
  let system := _build_prompt i18n_slice (agent self) slices None None None in
  let slices := slices ++ [lit "task"] in
  if negb (str_truth (system_template self))
     && negb (str_truth (prompt_template self))
     && bool_truth (use_system_prompt self)
  then
    [ (lit "system", system);
      (lit "user",
       _build_prompt i18n_slice (agent self) [lit "task"] None None None);
      (lit "prompt",
       _build_prompt i18n_slice (agent self) slices None None None) ]
  else
    [ (lit "prompt",
       _build_prompt i18n_slice (agent self) slices
                     (system_template self) (prompt_template self)
                     (response_template self)) ].

End TaskExecution.

(* ================================================================== *)
(** * RAG storage: [BaseRAGStorage] *)
(* ================================================================== *)

Section RAGStorage.

(** [crew] is typed [Any]: the crew objects, their truth value and the roles
    of [crew.agents] are parameters, and so are the embedder configuration
    and the abstract method [_sanitize_role]. *)
Variable Crew : Type.
Variable crew_truth : Crew -> bool.
Variable crew_agent_roles : Crew -> list str.
Variable EmbedderConfig : Type.
Variable _sanitize_role : str -> str.

Record BaseRAGStorage : Type := {
  type : str;
  allow_reset : bool;
  embedder_config : option EmbedderConfig;
  crew : option Crew;
  agents : str
}.

Definition _initialize_agents (self : BaseRAGStorage) : str :=
  match crew self with
  | Some c =>
      if crew_truth c
      then join (lit "_") (map _sanitize_role (crew_agent_roles c))
      else []
  | None => []
  end.

(** [__init__]: the four attributes are stored, then [agents] is computed
    from the object built so far. *)
Definition __init__ (type_ : str) (allow_reset_ : bool)
    (embedder_config_ : option EmbedderConfig) (crew_ : option Crew)
  : BaseRAGStorage :=
  let self := {| type := type_; allow_reset := allow_reset_;
                 embedder_config := embedder_config_; crew := crew_;
                 agents := [] |} in
  {| type := type self; allow_reset := allow_reset self;
     embedder_config := embedder_config self; crew := crew self;
     agents := _initialize_agents self |}.

End RAGStorage.

(* ================================================================== *)
(** * Vocabulary of the properties *)
(* ================================================================== *)

(** [sep] occurs in [s]. *)
Definition Substring (sep s : str) : Prop :=
  exists before rest, s = before ++ sep ++ rest.

(** The ceiling of [a / b] for a positive [b]. *)
Definition ceil_div (a b : Z) : Z := ((a + b - 1) / b)%Z.

(** Positions of the text covered by the chunk that starts at the [k]-th
    element of the range, with the bounds of its slice. *)
Definition chunk_span {St} (self : BaseKnowledgeSource St) (text : str) (k : nat)
  : Z * Z :=
  let i := (Z.of_nat k * (chunk_size self - chunk_overlap self))%Z in
  slice_bounds text i (i + chunk_size self).

(** The same chunk when size and stride are natural numbers. *)
Definition window {St} (self : BaseKnowledgeSource St) (text : str) (k : nat)
  : str :=
  firstn (Z.to_nat (chunk_size self))
         (skipn (k * Z.to_nat (chunk_size self - chunk_overlap self)) text).

(** Number of positions that two spans have in common. *)
Definition shared (a b : Z * Z) : Z :=
  Z.max 0 (Z.min (snd a) (snd b) - Z.max (fst a) (fst b)).

(** The last [o] characters of [c1] are the first [o] characters of [c2]. *)
Definition overlap_by (o : nat) (c1 c2 : str) : Prop :=
  o <= length c1 /\ o <= length c2 /\
  skipn (length c1 - o) c1 = firstn o c2.

Definition adjacent_overlap_by (o : nat) (cs : list str) : Prop :=
  forall k c1 c2,
    nth_error cs k = Some c1 -> nth_error cs (S k) = Some c2 ->
    overlap_by o c1 c2.

(** A result that holds a chunk of length zero. *)
Definition has_empty_chunk (r : result (list str)) : Prop :=
  exists cs, r = Ok cs /\ In [] cs.

(** Every chunk but the last cut to its first [stride] characters, then the
    last chunk in full. *)
Fixpoint reconstruct (stride : nat) (cs : list str) : str :=
  match cs with
  | [] => []
  | [c] => c
  | c :: rest => firstn stride c ++ reconstruct stride rest
  end.

(** The occurrence of [old] between [before] and [rest] is the leftmost
    one. *)
Definition Leftmost (old before rest : str) : Prop :=
  forall u v, before ++ old ++ rest = u ++ old ++ v -> length before <= length u.

(** [Replaced old new s s']: [s'] is [s] with every occurrence of [old],
    taken from left to right without overlap, replaced by [new]. *)
Inductive Replaced (old new : str) : str -> str -> Prop :=
| Replaced_none s :
    ~ Substring old s -> Replaced old new s s
| Replaced_first before rest rest' :
    Leftmost old before rest ->
    Replaced old new rest rest' ->
    Replaced old new (before ++ old ++ rest) (before ++ new ++ rest').

Section Calls.

Variable LLM : Type.
Variable llm_call : LLM -> str -> str -> str * LLM.
Variables instructions text : str.

(** The backend after [n] completion calls, and the raw text that the call
    number [n] (from zero) returns. *)
Fixpoint llm_after_calls (n : nat) (l : LLM) : LLM :=
  match n with
  | O => l
  | S n' => llm_after_calls n' (snd (llm_call l instructions text))
  end.

Definition raw_of_call (n : nat) (l : LLM) : str :=
  fst (llm_call (llm_after_calls n l) instructions text).

End Calls.

(** A name between double quotes. *)
Definition quoted (s : str) : str := [dq] ++ s ++ [dq].

(** Truth value of the [storage] field: [None] is false, a storage object
    has the truth value of its class. *)
Definition field_truth {St} (storage_truth : St -> bool) (o : option St)
  : bool :=
  match o with
  | Some st => storage_truth st
  | None => false
  end.

(** No white space at either end. *)
Definition trimmed (s : str) : Prop :=
  (forall c, hd_error s = Some c -> isspace c = false) /\
  (forall c, hd_error (rev s) = Some c -> isspace c = false).

(** Only white space. *)
Definition blank (s : str) : Prop := Forall (fun c => isspace c = true) s.

(** ** Sample objects *)

(** A knowledge source without storage. *)
Definition source_without_storage (size overlap : Z) : BaseKnowledgeSource unit :=
  {| chunk_size := size; chunk_overlap := overlap;
     chunks := []; storage := None |}.

(** A storage that appends what it is given to an in-memory backend. *)
Definition memory_save (_ : unit) (cs : list str) (b : list (list str))
  : list (list str) + Empty_set := inl (b ++ [cs]).

Definition source_with_storage (cs : list str) : BaseKnowledgeSource unit :=
  {| chunk_size := 4000; chunk_overlap := 200;
     chunks := cs; storage := Some tt |}.

(** A cache tool whose handler answers with the pair it is asked for. *)
Definition echo_read (_ : unit) (tool tool_input : str) : str * str :=
  (tool, tool_input).

Definition echo_tools : CacheTools unit :=
  {| name := lit "Hit Cache"; cache_handler := tt |}.




Definition reason_invalid (_ : unit) (_ : str) : str := lit "invalid JSON".



(** A table of slices that brackets the name it is asked for, and an
    agent. *)
Definition sample_slice (component : str) : str :=
  lit "<" ++ component ++ lit ">".

Definition sample_agent : Agent :=
  {| goal := lit "win"; role := lit "scout"; backstory := lit "none" |}.

(** A crew is given by the roles of its agents; a role is sanitized by
    putting it between brackets. *)
Definition sample_sanitize (role_ : str) : str := lit "[" ++ role_ ++ lit "]".

(** A backend that plays a script of answers, one per completion call, and
    a strict parser that accepts the texts that open with a brace. *)
Definition script_call (script : list str) (_ _ : str) : str * list str :=
  match script with
  | answer :: rest => (answer, rest)
  | [] => ([], [])
  end.

Definition accept_braces (_ : unit) (s : str) : option str :=
  match s with
  | 123%N :: _ => Some s
  | _ => None
  end.

Definition reject_text (_ : unit) (_ : str) : option str := None.

Definition script_instructor (script : list str) (_ : unit) (_ : str)
  : result str * list str :=
  (Raise (ConverterError (lit "function calling is not supported")), script).

Definition scripted_converter (script : list str) (attempts : nat)
  : Converter unit (list str) :=
  {| llm := script; text := lit "Name: Retry Alice, Age: 30"; model := tt;
     instructions := lit "Convert"; max_attempts := attempts |}.

(* ================================================================== *)
(** * Chunking *)
(* ================================================================== *)

Lemma ceil_div_spec (a b : Z) :
  (0 < b)%Z -> ((ceil_div a b - 1) * b < a <= ceil_div a b * b)%Z.
Proof.
  intros Hb. unfold ceil_div.
  pose proof (Z.div_mod (a + b - 1) b ltac:(lia)) as Hdm.
  pose proof (Z.mod_pos_bound (a + b - 1) b Hb) as Hm.
  nia.
Qed.

Lemma get_len_of_range_ceil (stop step : Z) :
  (0 <= stop)%Z -> (0 < step)%Z ->
  get_len_of_range 0 stop step = ceil_div stop step.
Proof.
  intros Hs Hp. unfold get_len_of_range, ceil_div.
  destruct (Z.ltb_spec 0 step) as [_|]; [|lia].
  destruct (Z.ltb_spec 0 stop) as [Hpos|Hz]; cbn [andb].
  - replace (stop + step - 1)%Z with ((stop - 1 - 0) + 1 * step)%Z by lia.
    rewrite Z.div_add by lia. lia.
  - assert (stop = 0)%Z as -> by lia.
    rewrite Z.div_small; lia.
Qed.

Lemma range_from_zero (stop step : Z) :
  (0 <= stop)%Z -> (0 < step)%Z ->
  range 0 stop step =
  Ok (map (fun k => (Z.of_nat k * step)%Z)
          (seq 0 (Z.to_nat (ceil_div stop step)))).
Proof.
  intros Hs Hp. unfold range.
  destruct (Z.eqb_spec step 0) as [|_]; [lia|].
  destruct (Z.ltb_spec 0 step) as [_|]; [|lia].
  rewrite get_len_of_range_ceil by assumption.
  reflexivity.
Qed.

Lemma slice_nonneg {A} (t : list A) (i j : Z) :
  (0 <= i)%Z -> (0 <= j)%Z ->
  slice t i j = firstn (Z.to_nat (j - i)) (skipn (Z.to_nat i) t).
Proof.
  intros Hi Hj. unfold slice, slice_bounds, adjust_index, len.
  destruct (Z.ltb_spec i 0); [lia|].
  destruct (Z.ltb_spec j 0); [lia|].
  destruct (Z_le_gt_dec i (Z.of_nat (length t))) as [Hle|Hgt].
  - rewrite (Z.min_l i) by lia.
    destruct (Z_le_gt_dec j (Z.of_nat (length t))) as [Hjle|Hjgt].
    + rewrite Z.min_l by lia. reflexivity.
    + rewrite Z.min_r by lia.
      rewrite !firstn_all2; try reflexivity; rewrite length_skipn; lia.
  - rewrite (Z.min_r i) by lia.
    rewrite !skipn_all2 by lia. now rewrite !firstn_nil.
Qed.

Lemma nth_error_map_seq {A} (f : nat -> A) (n a k : nat) :
  nth_error (map f (seq a n)) k = if k <? n then Some (f (a + k)) else None.
Proof.
  revert a k. induction n as [|n IH]; intros a k.
  - destruct k; reflexivity.
  - destruct k as [|k]; cbn [seq map nth_error].
    + now rewrite Nat.add_0_r.
    + rewrite IH. change (S k <? S n) with (k <? n).
      now rewrite Nat.add_succ_comm.
Qed.

Lemma firstn_min_length {A} (n : nat) (l : list A) :
  firstn (Nat.min n (length l)) l = firstn n l.
Proof.
  destruct (Nat.le_ge_cases n (length l)).
  - now rewrite Nat.min_l.
  - rewrite Nat.min_r by assumption.
    now rewrite !firstn_all2 by lia.
Qed.

Section Chunking.

Context {KnowledgeStorage : Type}.
Variable self : BaseKnowledgeSource KnowledgeStorage.
Variable text : str.

Let C := chunk_size self.
Let O := chunk_overlap self.
Let L := len text.

Hypothesis overlap_below_size : (0 <= O < C)%Z.

Local Abbreviation win := (window self text).

Lemma chunk_text_windows :
  _chunk_text self text =
  Ok (map win (seq 0 (Z.to_nat (ceil_div L (C - O))))).
Proof.
  unfold _chunk_text. fold C O L.
  rewrite range_from_zero by (unfold L, len; lia).
  cbn [bind]. rewrite map_map. f_equal.
  apply map_ext. intros k. unfold window; fold C O.
  rewrite slice_nonneg by nia.
  f_equal.
  - f_equal. lia.
  - f_equal. rewrite Z2Nat.inj_mul by lia. now rewrite Nat2Z.id.
Qed.

Lemma window_substring (k : nat) :
  exists before rest, text = before ++ win k ++ rest.
Proof.
  exists (firstn (k * Z.to_nat (C - O)) text).
  exists (skipn (Z.to_nat C) (skipn (k * Z.to_nat (C - O)) text)).
  unfold window; fold C O. now rewrite !firstn_skipn.
Qed.

Lemma reconstruct_windows (n a : nat) :
  length text <= (a + S n) * Z.to_nat (C - O) ->
  reconstruct (Z.to_nat (C - O)) (map win (seq a (S n))) =
  skipn (a * Z.to_nat (C - O)) text.
Proof.
  revert a. induction n as [|n IH]; intros a Hlen.
  - cbn [seq map reconstruct]. unfold window; fold C O.
    apply firstn_all2. rewrite length_skipn. nia.
  - change (seq a (S (S n))) with (a :: seq (S a) (S n)).
    cbn [map].
    change (reconstruct ?s (?c :: ?r))
      with (match r with [] => c | _ :: _ => firstn s c ++ reconstruct s r end).
    cbn [seq map]. cbn [seq map] in IH.
    rewrite IH by lia.
    unfold window at 1; fold C O. rewrite firstn_firstn.
    rewrite Nat.min_l by lia.
    etransitivity;
      [|apply (firstn_skipn (Z.to_nat (C - O))
                 (skipn (a * Z.to_nat (C - O)) text))].
    f_equal. rewrite skipn_skipn. f_equal; lia.
Qed.

Lemma window_length (k : nat) :
  length (win k) =
  Nat.min (Z.to_nat C) (length text - k * Z.to_nat (C - O)).
Proof. unfold window; fold C O. now rewrite length_firstn, length_skipn. Qed.

Lemma window_overlap (k : nat) :
  S k * Z.to_nat (C - O) < length text ->
  overlap_by (Nat.min (Z.to_nat O) (length text - S k * Z.to_nat (C - O)))
             (win k) (win (S k)).
Proof.
  intros Hk. unfold overlap_by. rewrite !window_length.
  set (s := Z.to_nat (C - O)) in *.
  assert (Hc : Z.to_nat C = s + Z.to_nat O) by (unfold s; lia).
  assert (Hs : S k * s = k * s + s) by lia.
  split; [lia|]. split; [lia|].
  replace (Nat.min (Z.to_nat C) (length text - k * s)
           - Nat.min (Z.to_nat O) (length text - S k * s)) with s by lia.
  unfold window; fold C O. fold s.
  rewrite skipn_firstn_comm, skipn_skipn, firstn_firstn.
  replace (s + k * s) with (S k * s) by lia.
  replace (Z.to_nat C - s) with (Z.to_nat O) by lia.
  replace (Nat.min (Nat.min (Z.to_nat O) (length text - S k * s)) (Z.to_nat C))
    with (Nat.min (Z.to_nat O) (length (skipn (S k * s) text)))
    by (rewrite length_skipn; lia).
  now rewrite firstn_min_length.
Qed.

Lemma span_shared (k : nat) :
  (Z.of_nat (S k) * (C - O) < L)%Z ->
  shared (chunk_span self text k) (chunk_span self text (S k)) =
  Z.min O (L - Z.of_nat (S k) * (C - O)).
Proof.
  intros Hk. unfold shared, chunk_span, slice_bounds, adjust_index.
  fold C O L. cbn [fst snd].
  rewrite Nat2Z.inj_succ in *.
  assert (0 <= Z.of_nat k * (C - O))%Z by nia.
  replace (Z.succ (Z.of_nat k) * (C - O))%Z
    with (Z.of_nat k * (C - O) + (C - O))%Z in * by lia.
  set (a := (Z.of_nat k * (C - O))%Z) in *.
  repeat match goal with
         | |- context [(?x <? 0)%Z] => destruct (Z.ltb_spec x 0); [lia|]
         end.
  lia.
Qed.

End Chunking.

Lemma window_span {St} (self : BaseKnowledgeSource St) (text : str) (k : nat) :
  (0 <= chunk_overlap self < chunk_size self)%Z ->
  window self text k =
  firstn (Z.to_nat (snd (chunk_span self text k) - fst (chunk_span self text k)))
         (skipn (Z.to_nat (fst (chunk_span self text k))) text).
Proof.
  intros H. unfold chunk_span.
  set (i := (Z.of_nat k * (chunk_size self - chunk_overlap self))%Z).
  transitivity (slice text i (i + chunk_size self)); [|reflexivity].
  unfold i. rewrite slice_nonneg by nia. unfold window.
  f_equal.
  - f_equal. lia.
  - f_equal. rewrite Z2Nat.inj_mul by lia. now rewrite Nat2Z.id.
Qed.

(** C1 (as amended). For a text of length [L > 0] and [0 <= O < C],
    [_chunk_text] returns exactly [ceil (L / (C - O))] chunks; the chunks
    number [k] and [k + 1] have exactly [min O (L - (k + 1) * (C - O))]
    positions of the text in common, and these characters end the earlier
    chunk and start the later one. *)
Theorem chunk_text_count_and_overlap {St} (self : BaseKnowledgeSource St)
    (text : str) :
  (0 < len text)%Z ->
  (0 <= chunk_overlap self < chunk_size self)%Z ->
  exists cs,
    _chunk_text self text = Ok cs /\
    len cs = ceil_div (len text) (chunk_size self - chunk_overlap self) /\
    forall k c1 c2,
      nth_error cs k = Some c1 -> nth_error cs (S k) = Some c2 ->
      let m := Z.min (chunk_overlap self)
                     (len text - Z.of_nat (S k)
                                 * (chunk_size self - chunk_overlap self)) in
      let sp1 := chunk_span self text k in
      let sp2 := chunk_span self text (S k) in
      c1 = firstn (Z.to_nat (snd sp1 - fst sp1)) (skipn (Z.to_nat (fst sp1)) text) /\
      c2 = firstn (Z.to_nat (snd sp2 - fst sp2)) (skipn (Z.to_nat (fst sp2)) text) /\
      shared sp1 sp2 = m /\
      overlap_by (Z.to_nat m) c1 c2.
Proof.
  intros HL HOC.
  set (C := chunk_size self) in *. set (O := chunk_overlap self) in *.
  pose proof (@ceil_div_spec (len text) (C - O)%Z ltac:(lia)) as Hceil.
  set (n := ceil_div (len text) (C - O)%Z) in *.
  assert (Hn : (0 < n)%Z) by nia.
  exists (map (window self text) (seq 0 (Z.to_nat n))).
  split; [apply chunk_text_windows; assumption|].
  split; [unfold len; rewrite length_map, length_seq; lia|].
  intros k c1 c2 H1 H2.
  rewrite nth_error_map_seq in H1, H2.
  destruct (Nat.ltb_spec (S k) (Z.to_nat n)) as [Hk|]; [|discriminate].
  destruct (Nat.ltb_spec k (Z.to_nat n)); [|discriminate].
  injection H1 as <-. injection H2 as <-. cbn [Nat.add].
  assert (Hlt : (Z.of_nat (S k) * (C - O) < len text)%Z) by nia.
  assert (Hmul : Z.of_nat (S k * Z.to_nat (C - O))
                 = (Z.of_nat (S k) * (C - O))%Z)
    by (rewrite Nat2Z.inj_mul, Z2Nat.id; lia).
  cbv zeta.
  split; [apply window_span; assumption|].
  split; [apply window_span; assumption|].
  split; [apply span_shared; assumption|].
  replace (Z.to_nat (Z.min O (len text - Z.of_nat (S k) * (C - O))))
    with (Nat.min (Z.to_nat O)
                  (length text - S k * Z.to_nat (C - O))).
  - apply window_overlap; [assumption|]. unfold len in Hlt. lia.
  - unfold len in *. lia.
Qed.

(** C8. For [0 <= O < C] every chunk that [_chunk_text] returns is a
    contiguous substring of the text, and the chunks other than the last,
    each cut to its first [C - O] characters, followed by the whole last
    chunk, concatenate to the text. *)
Theorem chunk_text_reconstructs {St} (self : BaseKnowledgeSource St)
    (text : str) :
  (0 <= chunk_overlap self < chunk_size self)%Z ->
  exists cs,
    _chunk_text self text = Ok cs /\
    (forall c, In c cs -> Substring c text) /\
    reconstruct (Z.to_nat (chunk_size self - chunk_overlap self)) cs = text.
Proof.
  intros HOC.
  set (C := chunk_size self) in *. set (O := chunk_overlap self) in *.
  pose proof (@ceil_div_spec (len text) (C - O)%Z ltac:(lia)) as Hceil.
  set (n := ceil_div (len text) (C - O)%Z) in *.
  exists (map (window self text) (seq 0 (Z.to_nat n))).
  split; [apply chunk_text_windows; assumption|].
  split.
  - intros c Hin. apply in_map_iff in Hin as (k & <- & _).
    apply window_substring.
  - destruct (Z.to_nat n) as [|m] eqn:Hm.
    + cbn [seq map reconstruct].
      assert (length text = 0) as H0 by (unfold len in Hceil; nia).
      destruct text; [reflexivity|discriminate].
    + assert (Hmul : Z.of_nat ((0 + S m) * Z.to_nat (C - O))
                     = (n * (C - O))%Z)
        by (rewrite Nat2Z.inj_mul, Z2Nat.id; lia).
      subst C O.
      rewrite reconstruct_windows; [reflexivity|assumption|].
      unfold len in Hceil. lia.
Qed.

(** C4 (as amended). With [chunk_overlap >= chunk_size] the call returns at
    once: equal values make the step of the range zero and [ValueError] is
    raised; a larger overlap makes the range empty and the result is the
    empty list.  No chunk of length zero is ever produced. *)
Theorem chunk_text_overlap_ge_size {St} (self : BaseKnowledgeSource St)
    (text : str) :
  (chunk_size self <= chunk_overlap self)%Z ->
  _chunk_text self text =
    (if (chunk_overlap self =? chunk_size self)%Z
     then Raise (ValueError (lit "range() arg 3 must not be zero"))
     else Ok []) /\
  ~ has_empty_chunk (_chunk_text self text).
Proof.
  intros Hge.
  assert (Heq : _chunk_text self text =
    (if (chunk_overlap self =? chunk_size self)%Z
     then Raise (ValueError (lit "range() arg 3 must not be zero"))
     else Ok [])).
  { unfold _chunk_text, range, get_len_of_range.
    destruct (Z.eqb_spec (chunk_overlap self) (chunk_size self)) as [->|Hne].
    - now rewrite Z.sub_diag.
    - destruct (Z.eqb_spec (chunk_size self - chunk_overlap self) 0); [lia|].
      destruct (Z.ltb_spec 0 (chunk_size self - chunk_overlap self)); [lia|].
      destruct (Z.ltb_spec (len text) 0); [unfold len in *; lia|].
      now rewrite andb_false_r. }
  split; [exact Heq|].
  rewrite Heq. intros (cs & Hcs & Hin).
  destruct (chunk_overlap self =? chunk_size self)%Z; [discriminate|].
  injection Hcs as <-. destruct Hin.
Qed.

Lemma chunk_text_count_and_overlap_witness :
  (0 < len (lit "abcdefghi"))%Z /\
  (0 <= chunk_overlap (source_without_storage 4 2)
      < chunk_size (source_without_storage 4 2))%Z /\
  exists cs,
    _chunk_text (source_without_storage 4 2) (lit "abcdefghi") = Ok cs /\
    len cs = ceil_div 9 2.
Proof.
  assert (H1 : (0 < len (lit "abcdefghi"))%Z) by (vm_compute; reflexivity).
  assert (H2 : (0 <= chunk_overlap (source_without_storage 4 2)
                  < chunk_size (source_without_storage 4 2))%Z)
    by (cbn; lia).
  split; [exact H1|]. split; [exact H2|].
  destruct (chunk_text_count_and_overlap
              (source_without_storage 4 2) (lit "abcdefghi") H1 H2)
    as (cs & Hcs & Hlen & _).
  exists cs. split; [exact Hcs|exact Hlen].
Defined.

(** C1 as stated fails: the text "abcdefghi" with size 4 and overlap 2
    gives the chunks abcd, cdef, efgh, ghi, i; the last chunk has a single
    character, so the last two chunks cannot overlap by 2. *)
Lemma chunk_text_overlap_counterexample :
  let self := source_without_storage 4 2 in
  let text := lit "abcdefghi" in
  (0 < len text)%Z /\
  (0 <= chunk_overlap self < chunk_size self)%Z /\
  _chunk_text self text =
    Ok [lit "abcd"; lit "cdef"; lit "efgh"; lit "ghi"; lit "i"] /\
  ~ (exists cs,
        _chunk_text self text = Ok cs /\
        len cs = ceil_div (len text) (chunk_size self - chunk_overlap self) /\
        adjacent_overlap_by (Z.to_nat (chunk_overlap self)) cs).
Proof.
  cbv zeta. split; [vm_compute; reflexivity|].
  split; [cbn; lia|].
  split; [vm_compute; reflexivity|].
  intros (cs & Hcs & _ & Hov).
  assert (cs = [lit "abcd"; lit "cdef"; lit "efgh"; lit "ghi"; lit "i"])
    as -> by (vm_compute in Hcs; injection Hcs as <-; reflexivity).
  destruct (Hov 3 (lit "ghi") (lit "i") eq_refl eq_refl) as (_ & Hlen & _).
  vm_compute in Hlen. lia.
Qed.

Lemma chunk_text_reconstructs_witness :
  (0 <= chunk_overlap (source_without_storage 4 2)
      < chunk_size (source_without_storage 4 2))%Z /\
  exists cs,
    _chunk_text (source_without_storage 4 2) (lit "abcdefghi") = Ok cs /\
    (forall c, In c cs -> Substring c (lit "abcdefghi")) /\
    reconstruct (Z.to_nat (chunk_size (source_without_storage 4 2)
                           - chunk_overlap (source_without_storage 4 2))) cs
    = lit "abcdefghi".
Proof.
  assert (H : (0 <= chunk_overlap (source_without_storage 4 2)
                 < chunk_size (source_without_storage 4 2))%Z)
    by (cbn; lia).
  split; [exact H|].
  exact (chunk_text_reconstructs
           (source_without_storage 4 2) (lit "abcdefghi") H).
Defined.

Lemma chunk_text_overlap_ge_size_witness :
  (chunk_size (source_without_storage 2 3)
   <= chunk_overlap (source_without_storage 2 3))%Z /\
  _chunk_text (source_without_storage 2 3) (lit "abc") = Ok [] /\
  ~ has_empty_chunk (_chunk_text (source_without_storage 2 3) (lit "abc")).
Proof.
  assert (H : (chunk_size (source_without_storage 2 3)
               <= chunk_overlap (source_without_storage 2 3))%Z)
    by (cbn; lia).
  split; [exact H|].
  exact (chunk_text_overlap_ge_size
           (source_without_storage 2 3) (lit "abc") H).
Defined.

(** C4 as stated fails: with overlap equal to size the call raises
    [ValueError], with a larger overlap it returns the empty list; in both
    cases it returns at once and no chunk of length zero exists. *)
Lemma chunk_text_degenerate_counterexample :
  let text := lit "abc" in
  let equal := source_without_storage 2 2 in
  let larger := source_without_storage 2 3 in
  (chunk_size equal <= chunk_overlap equal)%Z /\
  (chunk_size larger <= chunk_overlap larger)%Z /\
  _chunk_text equal text
    = Raise (ValueError (lit "range() arg 3 must not be zero")) /\
  _chunk_text larger text = Ok [] /\
  ~ has_empty_chunk (_chunk_text equal text) /\
  ~ has_empty_chunk (_chunk_text larger text).
Proof.
  cbv zeta.
  split; [cbn; lia|]. split; [cbn; lia|].
  split; [vm_compute; reflexivity|].
  split; [vm_compute; reflexivity|].
  split; intros (cs & Hcs & Hin); vm_compute in Hcs.
  - discriminate.
  - injection Hcs as <-. destruct Hin.
Qed.

(* ================================================================== *)
(** * Saving documents *)
(* ================================================================== *)

(** C5 (as amended). [_save_documents] raises an error of its own, the
    [ValueError], if and only if the [storage] field is false where the
    [if] tests it: it is [None], or it is a storage object whose truth value
    is false.  With a storage that is true the outcome is that of
    [storage.save] applied to the chunks of the source.  When every storage
    object is true, the error is raised if and only if the field is
    [None]. *)
Theorem save_documents_error_iff_storage_false
    {KnowledgeStorage Backend StorageError : Type}
    (storage_save :
       KnowledgeStorage -> list str -> Backend -> Backend + StorageError)
    (storage_truth : KnowledgeStorage -> bool)
    (self : BaseKnowledgeSource KnowledgeStorage) (b : Backend) :
  let r := _save_documents storage_save storage_truth self b in
  ((exists e, r = OwnError e)
   <-> field_truth storage_truth (storage self) = false) /\
  (field_truth storage_truth (storage self) = false ->
   r = OwnError (ValueError (lit "No storage found to save documents."))) /\
  (forall st, storage self = Some st -> storage_truth st = true ->
     r = match storage_save st (chunks self) b with
         | inl b' => Saved b'
         | inr e => StorageRaised e
         end) /\
  ((forall st, storage_truth st = true) ->
   ((exists e, r = OwnError e) <-> storage self = None)).
Proof.
  cbv zeta. unfold _save_documents, field_truth.
  destruct (storage self) as [st|].
  - destruct (storage_truth st) eqn:Et.
    + split; [|split; [|split]].
      * split; [|discriminate].
        intros (e & He).
        destruct (storage_save st (chunks self) b); discriminate.
      * discriminate.
      * intros st' [= <-] _. reflexivity.
      * intros _. split; [|discriminate].
        intros (e & He).
        destruct (storage_save st (chunks self) b); discriminate.
    + split; [|split; [|split]].
      * split; [reflexivity|]. intros _. eexists. reflexivity.
      * reflexivity.
      * intros st' [= <-] Ht. congruence.
      * intros Hall. specialize (Hall st). congruence.
  - split; [|split; [|split]].
    + split; [reflexivity|]. intros _. eexists. reflexivity.
    + reflexivity.
    + discriminate.
    + intros _. split; [reflexivity|]. intros _. eexists. reflexivity.
Qed.

(** C5 as stated fails: a storage object that is set but false (its class
    gives it the truth value [False]) makes [_save_documents] raise the
    [ValueError] although the [storage] field is not [None], and
    [storage.save] is not called. *)
Lemma save_documents_false_storage_counterexample :
  let self := source_with_storage [lit "abcd"; lit "cdef"] in
  let r := _save_documents memory_save (fun _ => false) self [] in
  storage self <> None /\
  r = OwnError (ValueError (lit "No storage found to save documents.")) /\
  ~ ((exists e, r = OwnError e) <-> storage self = None).
Proof.
  cbv zeta. split; [discriminate|]. split; [reflexivity|].
  intros [H _]. assert (Hnone : storage
    (source_with_storage [lit "abcd"; lit "cdef"]) = None)
    by (apply H; eexists; reflexivity).
  discriminate.
Qed.

(* ================================================================== *)
(** * Substring search, [split] and [replace] *)
(* ================================================================== *)

Lemma strip_prefix_app (p r : str) : strip_prefix p (p ++ r) = Some r.
Proof.
  induction p as [|a p IH]; cbn; [reflexivity|].
  now rewrite N.eqb_refl.
Qed.

Lemma strip_prefix_some (p s r : str) :
  strip_prefix p s = Some r -> s = p ++ r.
Proof.
  revert s. induction p as [|a p IH]; intros s H; cbn in H.
  - now injection H as ->.
  - destruct s as [|b s]; [discriminate|].
    destruct (N.eqb_spec a b) as [->|]; [|discriminate].
    cbn. f_equal. now apply IH.
Qed.

Lemma find_sep_some (sep s before rest : str) :
  find_sep sep s = Some (before, rest) -> s = before ++ sep ++ rest.
Proof.
  revert before. induction s as [|c s IH]; intros before H.
  - cbn [find_sep] in H.
    destruct (strip_prefix sep []) as [r|] eqn:Hp; [|discriminate].
    injection H as <- <-. exact (strip_prefix_some _ _ Hp).
  - cbn [find_sep] in H.
    destruct (strip_prefix sep (c :: s)) as [r|] eqn:Hp.
    + injection H as <- <-. exact (strip_prefix_some _ _ Hp).
    + destruct (find_sep sep s) as [[a b]|]; [|discriminate].
      injection H as <- <-. cbn. f_equal. now apply IH.
Qed.

Lemma find_sep_app (sep before rest : str) :
  find_sep sep (before ++ sep ++ rest) <> None.
Proof.
  induction before as [|c a IH].
  - cbn [app]. destruct (sep ++ rest) eqn:E; cbn [find_sep];
      rewrite <- E, strip_prefix_app; discriminate.
  - cbn [app find_sep].
    destruct (strip_prefix sep (c :: a ++ sep ++ rest)); [discriminate|].
    destruct (find_sep sep (a ++ sep ++ rest)) as [[? ?]|];
      [discriminate|contradiction].
Qed.

Lemma find_sep_none_iff (sep s : str) :
  find_sep sep s = None <-> ~ Substring sep s.
Proof.
  split.
  - intros H (a & b & ->). now apply (find_sep_app sep a b).
  - intros H. destruct (find_sep sep s) as [[a b]|] eqn:E; [|reflexivity].
    exfalso. apply H. exists a, b. now apply find_sep_some.
Qed.

Lemma contains_false_iff (sep s : str) :
  contains sep s = false <-> ~ Substring sep s.
Proof.
  rewrite <- find_sep_none_iff. unfold contains.
  destruct (find_sep sep s); split; congruence.
Qed.

Lemma Substring_cons_inv (sep s : str) (c : char) :
  ~ Substring sep (c :: s) -> ~ Substring sep s.
Proof.
  intros H (a & b & ->). apply H. now exists (c :: a), b.
Qed.

(** An occurrence in [a ++ c :: b] lies in [a], lies in [b], or covers the
    character [c]. *)
Lemma Substring_app_cons (sep a b : str) (c : char) :
  ~ In c sep -> ~ Substring sep a -> ~ Substring sep b ->
  ~ Substring sep (a ++ c :: b).
Proof.
  intros Hc Ha Hb (u & v & E).
  apply app_eq_app in E as (l & [[-> E]|[-> E]]).
  - symmetry in E. apply app_eq_app in E as (l2 & [[-> E]|[-> E]]).
    + apply Ha. now exists u, l2.
    + destruct l2 as [|c' l2].
      * apply Ha. exists u, []. now rewrite !app_nil_r.
      * injection E as <- _. apply Hc, in_or_app. right. now left.
  - destruct l as [|c' l].
    + destruct sep as [|c' sep].
      * apply Ha. exists a, []. now rewrite app_nil_r.
      * injection E as <- _. apply Hc. now left.
    + injection E as <- ->. apply Hb. now exists l, v.
Qed.

(** When the first character of the separator does not occur again in it,
    an occurrence that follows a separator-free prefix is the leftmost. *)
Lemma find_sep_after_clean_prefix (c : char) (t before rest : str) :
  ~ In c t -> ~ Substring (c :: t) before ->
  find_sep (c :: t) (before ++ (c :: t) ++ rest) = Some (before, rest).
Proof.
  intros Hc. induction before as [|x a IH]; intros Ha.
  - cbn [app]. cbn [find_sep].
    change (c :: t ++ rest) with ((c :: t) ++ rest).
    now rewrite strip_prefix_app.
  - change ((x :: a) ++ (c :: t) ++ rest) with (x :: (a ++ (c :: t) ++ rest)).
    cbn [find_sep].
    destruct (strip_prefix (c :: t) (x :: a ++ (c :: t) ++ rest)) as [r|] eqn:Hp.
    + exfalso. apply strip_prefix_some in Hp.
      change (x :: a ++ (c :: t) ++ rest)
        with ((x :: a) ++ (c :: t) ++ rest) in Hp.
      apply app_eq_app in Hp as (l & [[E1 E2]|[E1 E2]]).
      * apply Ha. exists [], l. exact E1.
      * destruct l as [|c' l].
        -- apply Ha. exists [], []. cbn. rewrite app_nil_r in *. now subst.
        -- injection E2 as <- _. injection E1 as _ E1.
           apply Hc. rewrite E1. apply in_or_app. right. now left.
    + rewrite IH by (eapply Substring_cons_inv; eassumption).
      reflexivity.
Qed.

Section Split.

Variable sep : str.
Hypothesis sep_nonempty : sep <> [].

Lemma find_sep_shorter (s before rest : str) :
  find_sep sep s = Some (before, rest) -> length rest < length s.
Proof.
  intros H. apply find_sep_some in H as ->.
  rewrite !length_app. destruct sep; [contradiction|cbn; lia].
Qed.

Lemma split_fuel_enough (n m : nat) (s : str) :
  length s < n -> length s < m -> split_fuel n sep s = split_fuel m sep s.
Proof.
  revert m s. induction n as [|n IH]; intros m s Hn Hm; [lia|].
  destruct m as [|m]; [lia|]. cbn [split_fuel].
  destruct (find_sep sep s) as [[a b]|] eqn:E; [|reflexivity].
  apply find_sep_shorter in E. f_equal. apply IH; lia.
Qed.

(** One round of [split]: the fuel never runs out. *)
Lemma split_unfold (s : str) :
  split sep s =
  match find_sep sep s with
  | None => [s]
  | Some (before, rest) => before :: split sep rest
  end.
Proof.
  unfold split at 1. cbn [split_fuel].
  destruct (find_sep sep s) as [[a b]|] eqn:E; [|reflexivity].
  apply find_sep_shorter in E. f_equal. apply split_fuel_enough; lia.
Qed.

Lemma split_no_sep (s : str) : ~ Substring sep s -> split sep s = [s].
Proof.
  intros H. rewrite split_unfold.
  apply find_sep_none_iff in H. now rewrite H.
Qed.

Lemma replace_fuel_enough (new : str) (n m : nat) (s : str) :
  length s < n -> length s < m ->
  replace_fuel n sep new s = replace_fuel m sep new s.
Proof.
  revert m s. induction n as [|n IH]; intros m s Hn Hm; [lia|].
  destruct m as [|m]; [lia|]. cbn [replace_fuel].
  destruct (find_sep sep s) as [[a b]|] eqn:E; [|reflexivity].
  apply find_sep_shorter in E. do 2 f_equal. apply IH; lia.
Qed.

Lemma replace_unfold (new s : str) :
  replace sep new s =
  match find_sep sep s with
  | None => s
  | Some (before, rest) => before ++ new ++ replace sep new rest
  end.
Proof.
  unfold replace at 1. cbn [replace_fuel].
  destruct (find_sep sep s) as [[a b]|] eqn:E; [|reflexivity].
  apply find_sep_shorter in E. do 2 f_equal. apply replace_fuel_enough; lia.
Qed.

End Split.

Lemma find_sep_at_start (sep rest : str) :
  find_sep sep (sep ++ rest) = Some ([], rest).
Proof.
  destruct (sep ++ rest) eqn:E; cbn [find_sep];
    now rewrite <- E, strip_prefix_app.
Qed.

(** The piece that [split] returns first is a prefix of the string. *)
Lemma split_head_prefix (sep s : str) :
  sep <> [] -> exists tl, s = hd [] (split sep s) ++ tl.
Proof.
  intros Hsep. rewrite split_unfold by assumption.
  destruct (find_sep sep s) as [[a b]|] eqn:E; cbn [hd].
  - apply find_sep_some in E. now exists (sep ++ b).
  - exists []. now rewrite app_nil_r.
Qed.

(** The built-ins on the inputs of the Python documentation. *)
Example split_commas :
  split (lit ",") (lit "1,2,,3,") = [lit "1"; lit "2"; []; lit "3"; []].
Proof. vm_compute. reflexivity. Qed.

Example split_without_overlap :
  split (lit "aa") (lit "aaaaa") = [[]; []; lit "a"].
Proof. vm_compute. reflexivity. Qed.

Example replace_without_overlap :
  replace (lit "aa") (lit "b") (lit "aaaaa") = lit "bba".
Proof. vm_compute. reflexivity. Qed.

Example strip_spacious :
  strip ([32; 9; 10]%N ++ lit "spacious  text" ++ [13; 32; 160]%N)
  = lit "spacious  text".
Proof. vm_compute. reflexivity. Qed.

Example range_with_step :
  range 0 10 3 = Ok [0; 3; 6; 9]%Z /\ range 0 10 (-3) = Ok [] /\
  range 10 0 (-3) = Ok [10; 7; 4; 1]%Z.
Proof. repeat split; vm_compute; reflexivity. Qed.

Example slice_clamps :
  slice (lit "abcdef") 4 9 = lit "ef" /\ slice (lit "abcdef") (-2) 6 = lit "ef" /\
  slice (lit "abcdef") 7 9 = [] /\ slice (lit "abcdef") 2 (-1) = lit "cde".
Proof. repeat split; vm_compute; reflexivity. Qed.

(* ================================================================== *)
(** * Cache tool *)
(* ================================================================== *)

Section HitCache.

Variables CacheHandler Value : Type.
Variable read : CacheHandler -> str -> str -> Value.
Variable self : CacheTools CacheHandler.

Local Abbreviation tool_ := (lit "tool:").
Local Abbreviation input_ := (lit "|input:").

Lemma tool_nonempty : tool_ <> [].
Proof. discriminate. Qed.

Lemma input_nonempty : input_ <> [].
Proof. discriminate. Qed.

(** No occurrence of "tool:" can begin inside "|input:". *)
Lemma tool_not_across_input (X Y : str) :
  ~ Substring tool_ X -> ~ Substring tool_ Y ->
  ~ Substring tool_ (X ++ input_ ++ Y).
Proof.
  intros HX HY.
  change (X ++ input_ ++ Y) with (X ++ 124%N :: (lit "input:" ++ Y)).
  apply Substring_app_cons; [|assumption|].
  - vm_compute. intuition discriminate.
  - apply find_sep_none_iff. apply find_sep_none_iff in HY.
    unfold lit in *. cbn in *. now rewrite HY.
Qed.

Lemma split_key (X Y : str) :
  ~ Substring tool_ X -> ~ Substring tool_ Y ->
  split tool_ (tool_ ++ X ++ input_ ++ Y) = [[]; X ++ input_ ++ Y].
Proof.
  intros HX HY.
  rewrite split_unfold by apply tool_nonempty.
  rewrite find_sep_at_start.
  rewrite split_no_sep;
    [reflexivity|apply tool_nonempty|now apply tool_not_across_input].
Qed.

Lemma split_segment (X Y : str) :
  ~ Substring input_ X -> ~ Substring input_ Y ->
  split input_ (X ++ input_ ++ Y) = [X; Y].
Proof.
  intros HX HY.
  assert (E : find_sep input_ (X ++ input_ ++ Y) = Some (X, Y)).
  { apply (@find_sep_after_clean_prefix 124%N (lit "input:") X Y).
    - vm_compute. intuition discriminate.
    - exact HX. }
  rewrite split_unfold by apply input_nonempty.
  rewrite E.
  rewrite split_no_sep; [reflexivity|apply input_nonempty|assumption].
Qed.

End HitCache.

(** C3 (as amended). For [X] and [Y] that contain neither "tool:" nor
    "|input:", [hit_cache] on the key "tool:X|input:Y" reads the cache at
    [X.strip()] and [Y.strip()] and returns that value; the pair is [X], [Y]
    itself when neither has white space at its ends. *)
Theorem hit_cache_parses_key {CacheHandler Value : Type}
    (read : CacheHandler -> str -> str -> Value)
    (self : CacheTools CacheHandler) (X Y : str) :
  ~ Substring (lit "tool:") X -> ~ Substring (lit "|input:") X ->
  ~ Substring (lit "tool:") Y -> ~ Substring (lit "|input:") Y ->
  hit_cache read self (lit "tool:" ++ X ++ lit "|input:" ++ Y)
    = Ok (read (cache_handler self) (strip X) (strip Y)) /\
  (strip X = X -> strip Y = Y ->
   hit_cache read self (lit "tool:" ++ X ++ lit "|input:" ++ Y)
     = Ok (read (cache_handler self) X Y)).
Proof.
  intros HtX HiX HtY HiY.
  assert (H : hit_cache read self (lit "tool:" ++ X ++ lit "|input:" ++ Y)
              = Ok (read (cache_handler self) (strip X) (strip Y))).
  { unfold hit_cache. rewrite split_key by assumption.
    cbn [index nth_error bind].
    rewrite split_segment by assumption. reflexivity. }
  split; [exact H|].
  intros EX EY. rewrite H. now rewrite EX, EY.
Qed.

(** C9. A key without "tool:", or one in which the text after the first
    "tool:" (read as everything that follows it, or as the piece up to the
    next "tool:", which is what [split[1]] holds) has no "|input:", makes
    [hit_cache] raise [IndexError]. *)
Theorem hit_cache_index_error {CacheHandler Value : Type}
    (read : CacheHandler -> str -> str -> Value)
    (self : CacheTools CacheHandler) (key : str) :
  ~ Substring (lit "tool:") key \/
  (exists before rest,
      find_sep (lit "tool:") key = Some (before, rest) /\
      ~ Substring (lit "|input:") rest) \/
  (exists seg,
      index (split (lit "tool:") key) 1 = Ok seg /\
      ~ Substring (lit "|input:") seg) ->
  hit_cache read self key = Raise IndexError.
Proof.
  assert (Hseg : forall seg,
             index (split (lit "tool:") key) 1 = Ok seg ->
             ~ Substring (lit "|input:") seg ->
             hit_cache read self key = Raise IndexError).
  { intros seg Hidx Hno. unfold hit_cache. rewrite Hidx. cbn [bind].
    rewrite split_no_sep by (assumption || apply input_nonempty).
    reflexivity. }
  intros [Hno|[(before & rest & Hfind & Hno)|(seg & Hidx & Hno)]].
  - unfold hit_cache.
    rewrite split_no_sep by (assumption || apply tool_nonempty).
    reflexivity.
  - destruct (split_head_prefix rest tool_nonempty) as (tl & Htl).
    apply (Hseg (hd [] (split (lit "tool:") rest))).
    + rewrite split_unfold by apply tool_nonempty. rewrite Hfind.
      unfold index. cbn [nth_error].
      rewrite (split_unfold tool_nonempty rest).
      destruct (find_sep (lit "tool:") rest) as [[a b]|]; reflexivity.
    + intros (u & v & E). apply Hno. exists u, (v ++ tl).
      rewrite Htl at 1. rewrite E. now rewrite <- !app_assoc.
  - now apply (Hseg seg).
Qed.

Lemma hit_cache_parses_key_witness :
  ~ Substring (lit "tool:") (lit "search") /\
  ~ Substring (lit "|input:") (lit "search") /\
  ~ Substring (lit "tool:") (lit "rocq") /\
  ~ Substring (lit "|input:") (lit "rocq") /\
  hit_cache echo_read echo_tools (lit "tool:search|input:rocq")
    = Ok (lit "search", lit "rocq").
Proof.
  assert (H1 : ~ Substring (lit "tool:") (lit "search"))
    by (apply contains_false_iff; vm_compute; reflexivity).
  assert (H2 : ~ Substring (lit "|input:") (lit "search"))
    by (apply contains_false_iff; vm_compute; reflexivity).
  assert (H3 : ~ Substring (lit "tool:") (lit "rocq"))
    by (apply contains_false_iff; vm_compute; reflexivity).
  assert (H4 : ~ Substring (lit "|input:") (lit "rocq"))
    by (apply contains_false_iff; vm_compute; reflexivity).
  repeat (split; [assumption|]).
  exact (proj1 (hit_cache_parses_key echo_read echo_tools H1 H2 H3 H4)).
Defined.

(** C3 as stated fails: for [X] = " a" and [Y] = "b " the key
    "tool: a|input:b " is read at ("a", "b"), not at ([X], [Y]): both parts
    are stripped of white space before the cache is read. *)
Lemma hit_cache_strips_counterexample :
  let X := lit " a" in
  let Y := lit "b " in
  ~ Substring (lit "tool:") X /\ ~ Substring (lit "|input:") X /\
  ~ Substring (lit "tool:") Y /\ ~ Substring (lit "|input:") Y /\
  hit_cache echo_read echo_tools (lit "tool:" ++ X ++ lit "|input:" ++ Y)
    = Ok (echo_read tt (lit "a") (lit "b")) /\
  hit_cache echo_read echo_tools (lit "tool:" ++ X ++ lit "|input:" ++ Y)
    <> Ok (echo_read (cache_handler echo_tools) X Y).
Proof.
  cbv zeta.
  repeat (split; [apply contains_false_iff; vm_compute; reflexivity|]).
  split; [vm_compute; reflexivity|].
  vm_compute. discriminate.
Qed.

Lemma hit_cache_index_error_witness :
  (~ Substring (lit "tool:") (lit "tool:search") \/
   (exists before rest,
       find_sep (lit "tool:") (lit "tool:search") = Some (before, rest) /\
       ~ Substring (lit "|input:") rest) \/
   (exists seg,
       index (split (lit "tool:") (lit "tool:search")) 1 = Ok seg /\
       ~ Substring (lit "|input:") seg)) /\
  hit_cache echo_read echo_tools (lit "tool:search") = Raise IndexError.
Proof.
  assert (H : ~ Substring (lit "tool:") (lit "tool:search") \/
   (exists before rest,
       find_sep (lit "tool:") (lit "tool:search") = Some (before, rest) /\
       ~ Substring (lit "|input:") rest) \/
   (exists seg,
       index (split (lit "tool:") (lit "tool:search")) 1 = Ok seg /\
       ~ Substring (lit "|input:") seg)).
  { right. left. exists [], (lit "search").
    split; [vm_compute; reflexivity|].
    apply contains_false_iff. vm_compute. reflexivity. }
  split; [exact H|].
  exact (hit_cache_index_error echo_read echo_tools H).
Defined.

(* ================================================================== *)
(** * Prompt builder *)
(* ================================================================== *)

Lemma find_sep_leftmost (sep s before rest : str) :
  find_sep sep s = Some (before, rest) ->
  forall u v, s = u ++ sep ++ v -> length before <= length u.
Proof.
  revert before. induction s as [|c s IH]; intros before H u v E.
  - cbn [find_sep] in H.
    destruct (strip_prefix sep []); [|discriminate].
    injection H as <- _. cbn. lia.
  - cbn [find_sep] in H.
    destruct (strip_prefix sep (c :: s)) as [r|] eqn:Hp.
    + injection H as <- _. cbn. lia.
    + destruct (find_sep sep s) as [[a b]|] eqn:Hf; [|discriminate].
      injection H as <- <-.
      destruct u as [|c' u].
      * cbn [app] in E. rewrite E, strip_prefix_app in Hp. discriminate.
      * injection E as _ E. cbn [length].
        apply le_n_S. now apply (IH a eq_refl u v).
Qed.

Lemma app_same_length {A} (a a' b b' : list A) :
  a ++ b = a' ++ b' -> length a = length a' -> a = a' /\ b = b'.
Proof.
  revert a'. induction a as [|x a IH]; intros [|x' a'] E Hlen;
    try discriminate.
  - now split.
  - injection E as -> E. injection Hlen as Hlen.
    destruct (IH a' E Hlen) as [-> ->]. now split.
Qed.

Lemma Leftmost_find_sep (old before rest : str) :
  Leftmost old before rest ->
  find_sep old (before ++ old ++ rest) = Some (before, rest).
Proof.
  intros Hl.
  destruct (find_sep old (before ++ old ++ rest)) as [[a b]|] eqn:E;
    [|now apply find_sep_app in E].
  pose proof (@find_sep_leftmost _ _ _ _ E before rest eq_refl) as Hle.
  pose proof (@find_sep_some _ _ _ _ E) as Es.
  pose proof (Hl a b Es) as Hge.
  destruct (@app_same_length _ _ _ _ _ Es) as [-> Er]; [lia|].
  apply app_inv_head in Er. now subst.
Qed.

Section Replace.

Variables old new : str.
Hypothesis old_nonempty : old <> [].

(** [replace] computes the relation [Replaced] ... *)
Lemma replace_Replaced (s : str) : Replaced old new s (replace old new s).
Proof.
  remember (length s) as n eqn:Hn.
  revert s Hn. induction n as [n IH] using lt_wf_ind. intros s ->.
  rewrite replace_unfold by assumption.
  destruct (find_sep old s) as [[a b]|] eqn:E.
  - pose proof (@find_sep_some _ _ _ _ E) as ->.
    apply Replaced_first.
    + intros u v Euv. exact (@find_sep_leftmost _ _ _ _ E u v Euv).
    + apply (IH (length b)); [|reflexivity].
      exact (@find_sep_shorter _ old_nonempty _ _ _ E).
  - apply Replaced_none. now apply find_sep_none_iff.
Qed.

(** ... and nothing else satisfies it. *)
Lemma Replaced_unique (s s' : str) :
  Replaced old new s s' -> s' = replace old new s.
Proof.
  induction 1 as [s Hno|before rest rest' Hl _ IH].
  - rewrite replace_unfold by assumption.
    apply find_sep_none_iff in Hno. now rewrite Hno.
  - rewrite replace_unfold by assumption.
    rewrite (Leftmost_find_sep Hl). now rewrite IH.
Qed.

End Replace.

(** C7. The prompt that [_build_prompt] returns is the assembled template
    in which first every "{goal}" is replaced by the goal of the agent, then
    in the outcome every "{role}" by its role, then in that outcome every
    "{backstory}" by its backstory; no other string is obtained this way. *)
Theorem build_prompt_substitutes (i18n_slice : str -> str) (agent : Agent)
    (components : list str)
    (system_template prompt_template response_template : option str) :
  let template :=
    _assemble_prompt i18n_slice components system_template prompt_template
                     response_template in
  exists p1 p2,
    Replaced (lit "{goal}") (goal agent) template p1 /\
    Replaced (lit "{role}") (role agent) p1 p2 /\
    Replaced (lit "{backstory}") (backstory agent) p2
      (_build_prompt i18n_slice agent components system_template
                     prompt_template response_template) /\
    forall q1 q2 q3,
      Replaced (lit "{goal}") (goal agent) template q1 ->
      Replaced (lit "{role}") (role agent) q1 q2 ->
      Replaced (lit "{backstory}") (backstory agent) q2 q3 ->
      q3 = _build_prompt i18n_slice agent components system_template
                         prompt_template response_template.
Proof.
  intros template. unfold _build_prompt. fold template.
  exists (replace (lit "{goal}") (goal agent) template).
  exists (replace (lit "{role}") (role agent)
            (replace (lit "{goal}") (goal agent) template)).
  repeat split; try (apply replace_Replaced; discriminate).
  intros q1 q2 q3 H1 H2 H3.
  apply Replaced_unique in H1; [|discriminate].
  apply Replaced_unique in H2; [|discriminate].
  apply Replaced_unique in H3; [|discriminate].
  now subst.
Qed.

(* ================================================================== *)
(** * Converter *)
(* ================================================================== *)

Section ToPydantic.

Variables Schema Model LLM : Type.
Variable llm_call : LLM -> str -> str -> str * LLM.
Variable supports_function_calling : LLM -> bool.
Variable instructor_to_pydantic : LLM -> Schema -> str -> result Model * LLM.
Variable model_validate_json : Schema -> str -> option Model.
Variable extract_json : Schema -> str -> option Model.
Variable failure_reason : Schema -> str -> str.
Variable self : Converter Schema LLM.

Local Abbreviation raw k l :=
  (raw_of_call llm_call (instructions self) (text self) k l).
Local Abbreviation after k l :=
  (llm_after_calls llm_call (instructions self) (text self) k l).
Local Abbreviation fails s :=
  (model_validate_json (model self) s = None /\
   extract_json (model self) s = None).



End ToPydantic.




Lemma describe_optional (t : annotation) (d : str) :
  describe_field t = Some d -> is_none t = false ->
  describe_field (Optional_ t) = Some (lit "Optional[" ++ d ++ lit "]") /\
  describe_field (TUnion [NoneType; t]) = Some (lit "Optional[" ++ d ++ lit "]").
Proof.
  intros Hd Hn. unfold Optional_, NoneType.
  cbn [describe_field map]. rewrite Hd, Hn.
  change (is_none (TClass (lit "NoneType"))) with true.
  cbn [filter negb fst]. now split.
Qed.

Lemma describe_model_lines (fields : list (str * annotation))
    (lines : list str) :
  Forall2 (fun f line =>
             exists d, describe_field (snd f) = Some d /\
                       line = field_line (fst f) d) fields lines ->
  generate_model_description fields = Some (braces lines).
Proof.
  intros H. unfold generate_model_description. cbn [describe_field].
  assert (E : collect (map (fun f =>
                              match describe_field (snd f) with
                              | Some d => Some (field_line (fst f) d)
                              | None => None
                              end) fields) = Some lines).
  { induction H as [|f line fields lines (d & Hd & ->) _ IH];
      [reflexivity|].
    cbn [map collect]. now rewrite Hd, IH. }
  now rewrite E.
Qed.

(** The model on the classes [SimpleModel] and [NestedModel] of the tests
    (lines 291-302), and on a field of an [Enum] class. *)
Example description_of_simple_and_nested_model :
  generate_model_description
    [(lit "name", TClass (lit "str")); (lit "age", TClass (lit "int"))]
  = Some (lit "{" ++ [nl] ++ lit "  " ++ quoted (lit "name") ++ lit ": str,"
          ++ [nl] ++ lit "  " ++ quoted (lit "age") ++ lit ": int"
          ++ [nl] ++ lit "}") /\
  generate_model_description
    [(lit "id", TClass (lit "int"));
     (lit "data", TModel [(lit "name", TClass (lit "str"));
                          (lit "age", TClass (lit "int"))])]
  = Some (lit "{" ++ [nl] ++ lit "  " ++ quoted (lit "id") ++ lit ": int,"
          ++ [nl] ++ lit "  " ++ quoted (lit "data") ++ lit ": {"
          ++ [nl] ++ lit "  " ++ quoted (lit "name") ++ lit ": str,"
          ++ [nl] ++ lit "  " ++ quoted (lit "age") ++ lit ": int"
          ++ [nl] ++ lit "}" ++ [nl] ++ lit "}") /\
  generate_model_description
    [(lit "name", TClass (lit "str")); (lit "color", TClass (lit "Color"))]
  = Some (lit "{" ++ [nl] ++ lit "  " ++ quoted (lit "name") ++ lit ": str,"
          ++ [nl] ++ lit "  " ++ quoted (lit "color") ++ lit ": Color"
          ++ [nl] ++ lit "}").
Proof. repeat split; vm_compute; reflexivity. Qed.

(** C6. [generate_model_description] writes the field types in their
    documented forms inside the braces-style description: an optional type
    as [Optional[...]] around the form of its member, a list as [List[...]],
    a dict as [Dict[..., ...]], a union of built-in classes written with
    [|] as its members between [" | "] with [None] for [NoneType]; each
    field gives the line ["name": form], and the lines stand between
    braces, separated by a comma and a line break.  In particular
    [Optional[str]], [List[int]], [Dict[str, int]] and [int | str | None]
    are rendered as these very texts, in the models of the tests. *)
Theorem generate_model_description_forms :
  (forall t d,
      describe_field t = Some d -> is_none t = false ->
      describe_field (Optional_ t) = Some (lit "Optional[" ++ d ++ lit "]")) /\
  (forall t d,
      describe_field t = Some d ->
      describe_field (TList t) = Some (lit "List[" ++ d ++ lit "]")) /\
  (forall k v dk dv,
      describe_field k = Some dk -> describe_field v = Some dv ->
      describe_field (TDict k v)
      = Some (lit "Dict[" ++ dk ++ lit ", " ++ dv ++ lit "]")) /\
  (forall names,
      describe_field (TUnionType names)
      = Some (join (lit " | ") (map union_member names))) /\
  (forall fields lines,
      Forall2 (fun f line =>
                 exists d, describe_field (snd f) = Some d /\
                           line = quoted (fst f) ++ lit ": " ++ d)
              fields lines ->
      generate_model_description fields
      = Some (lit "{" ++ [nl] ++ lit "  "
              ++ join (lit "," ++ [nl] ++ lit "  ") lines
              ++ [nl] ++ lit "}")) /\
  describe_field (Optional_ (TClass (lit "str"))) = Some (lit "Optional[str]") /\
  describe_field (TList (TClass (lit "int"))) = Some (lit "List[int]") /\
  describe_field (TDict (TClass (lit "str")) (TClass (lit "int")))
    = Some (lit "Dict[str, int]") /\
  describe_field (TUnionType [lit "int"; lit "str"; lit "NoneType"])
    = Some (lit "int | str | None") /\
  generate_model_description
    [(lit "name", Optional_ (TClass (lit "str")));
     (lit "age", TClass (lit "int"))]
  = Some (lit "{" ++ [nl] ++ lit "  " ++ quoted (lit "name")
          ++ lit ": Optional[str]," ++ [nl] ++ lit "  " ++ quoted (lit "age")
          ++ lit ": int" ++ [nl] ++ lit "}") /\
  generate_model_description [(lit "items", TList (TClass (lit "int")))]
  = Some (lit "{" ++ [nl] ++ lit "  " ++ quoted (lit "items")
          ++ lit ": List[int]" ++ [nl] ++ lit "}") /\
  generate_model_description
    [(lit "attributes", TDict (TClass (lit "str")) (TClass (lit "int")))]
  = Some (lit "{" ++ [nl] ++ lit "  " ++ quoted (lit "attributes")
          ++ lit ": Dict[str, int]" ++ [nl] ++ lit "}") /\
  generate_model_description
    [(lit "field", TUnionType [lit "int"; lit "str"; lit "NoneType"])]
  = Some (lit "{" ++ [nl] ++ lit "  " ++ quoted (lit "field")
          ++ lit ": int | str | None" ++ [nl] ++ lit "}").
Proof.
  split; [intros t d Hd Hn; exact (proj1 (describe_optional t Hd Hn))|].
  split; [intros t d Hd; cbn [describe_field]; now rewrite Hd|].
  split; [intros k v dk dv Hk Hv; cbn [describe_field]; now rewrite Hk, Hv|].
  split; [reflexivity|].
  split.
  { intros fields lines H. apply describe_model_lines.
    eapply Forall2_impl; [|exact H].
    intros f line (d & Hd & ->). exists d. split; [exact Hd|].
    unfold quoted, field_line. now rewrite <- !app_assoc. }
  repeat split; vm_compute; reflexivity.
Qed.

(* ================================================================== *)
(** * Further properties of the chunking *)
(* ================================================================== *)

(** X1. On the empty text [_chunk_text] returns no chunk, whatever size and
    overlap are, except that equal size and overlap still raise the
    [ValueError] of a zero range step. *)
Theorem chunk_text_empty_text {St} (self : BaseKnowledgeSource St) :
  _chunk_text self [] =
    if (chunk_size self =? chunk_overlap self)%Z
    then Raise (ValueError (lit "range() arg 3 must not be zero"))
    else Ok [].
Proof.
  unfold _chunk_text, range, get_len_of_range, len. cbn [length Z.of_nat].
  destruct (Z.eqb_spec (chunk_size self) (chunk_overlap self)) as [->|Hne].
  - now rewrite Z.sub_diag.
  - destruct (Z.eqb_spec (chunk_size self - chunk_overlap self) 0); [lia|].
    rewrite Z.ltb_irrefl, !andb_false_r.
    now destruct (0 <? chunk_size self - chunk_overlap self)%Z.
Qed.

(** X2. For [0 <= O < C] the chunk number [k] has
    [min C (L - k * (C - O))] characters: no chunk is empty, none is longer
    than [chunk_size], and a chunk is shorter than [chunk_size] only when
    it runs into the end of the text. *)
Theorem chunk_text_lengths {St} (self : BaseKnowledgeSource St) (text : str)
    (cs : list str) (k : nat) (c : str) :
  (0 <= chunk_overlap self < chunk_size self)%Z ->
  _chunk_text self text = Ok cs ->
  nth_error cs k = Some c ->
  len c = Z.min (chunk_size self)
                (len text - Z.of_nat k * (chunk_size self - chunk_overlap self))
  /\ (0 < len c <= chunk_size self)%Z.
Proof.
  intros HOC Hcs Hk.
  rewrite chunk_text_windows in Hcs by assumption.
  injection Hcs as <-. rewrite nth_error_map_seq in Hk.
  set (C := chunk_size self) in *. set (O := chunk_overlap self) in *.
  destruct (Nat.ltb_spec k (Z.to_nat (ceil_div (len text) (C - O))))
    as [Hlt|]; [|discriminate].
  injection Hk as <-. cbn [Nat.add].
  assert (Hpos : (0 < len text)%Z).
  { destruct (Z.eq_dec (len text) 0) as [E|]; [|unfold len in *; lia].
    rewrite E in Hlt. unfold ceil_div in Hlt.
    rewrite Z.div_small in Hlt by lia. cbn in Hlt. lia. }
  pose proof (@ceil_div_spec (len text) (C - O)%Z ltac:(lia)) as Hceil.
  assert (Hstart : (Z.of_nat k * (C - O) < len text)%Z) by nia.
  assert (Hmul : Z.of_nat (k * Z.to_nat (C - O)) = (Z.of_nat k * (C - O))%Z)
    by (rewrite Nat2Z.inj_mul, Z2Nat.id; lia).
  unfold len in *. rewrite window_length. fold C O. lia.
Qed.

Lemma chunk_text_lengths_witness :
  (0 <= chunk_overlap (source_without_storage 4 2)
      < chunk_size (source_without_storage 4 2))%Z /\
  _chunk_text (source_without_storage 4 2) (lit "abcdefghi")
    = Ok [lit "abcd"; lit "cdef"; lit "efgh"; lit "ghi"; lit "i"] /\
  nth_error [lit "abcd"; lit "cdef"; lit "efgh"; lit "ghi"; lit "i"] 3
    = Some (lit "ghi") /\
  len (lit "ghi") = 3%Z.
Proof.
  assert (H1 : (0 <= chunk_overlap (source_without_storage 4 2)
                  < chunk_size (source_without_storage 4 2))%Z) by (cbn; lia).
  assert (H2 : _chunk_text (source_without_storage 4 2) (lit "abcdefghi")
               = Ok [lit "abcd"; lit "cdef"; lit "efgh"; lit "ghi"; lit "i"])
    by (vm_compute; reflexivity).
  assert (H3 : nth_error [lit "abcd"; lit "cdef"; lit "efgh"; lit "ghi"; lit "i"] 3
               = Some (lit "ghi")) by reflexivity.
  repeat (split; [assumption|]).
  exact (proj1 (chunk_text_lengths (source_without_storage 4 2)
                  (lit "abcdefghi") 3 H1 H2 H3)).
Defined.

(** X3. For [0 <= O < C] a non-empty text comes back as the single chunk
    [[text]] exactly when it is no longer than the stride [C - O]; a text
    that fits into [chunk_size] but is longer than the stride is followed by
    further chunks. *)
Theorem chunk_text_single_chunk_iff {St} (self : BaseKnowledgeSource St)
    (text : str) :
  (0 <= chunk_overlap self < chunk_size self)%Z ->
  (0 < len text)%Z ->
  (_chunk_text self text = Ok [text]
   <-> (len text <= chunk_size self - chunk_overlap self)%Z).
Proof.
  intros HOC HL. rewrite chunk_text_windows by assumption.
  set (C := chunk_size self) in *. set (O := chunk_overlap self) in *.
  pose proof (@ceil_div_spec (len text) (C - O)%Z ltac:(lia)) as Hceil.
  set (n := ceil_div (len text) (C - O)%Z) in *.
  split.
  - intros H. injection H as H.
    apply (f_equal (@length str)) in H.
    rewrite length_map, length_seq in H. cbn in H.
    assert (n = 1%Z) by lia. nia.
  - intros Hle. assert (Hn : n = 1%Z) by nia. rewrite Hn.
    change (Z.to_nat 1) with 1. cbn [seq map]. do 2 f_equal.
    unfold window. fold C O. cbn [Nat.mul skipn].
    apply firstn_all2. unfold len in *. lia.
Qed.

Lemma chunk_text_single_chunk_iff_witness :
  (0 <= chunk_overlap (source_without_storage 4 2)
      < chunk_size (source_without_storage 4 2))%Z /\
  (0 < len (lit "abc"))%Z /\
  _chunk_text (source_without_storage 4 2) (lit "abc") <> Ok [lit "abc"].
Proof.
  assert (H1 : (0 <= chunk_overlap (source_without_storage 4 2)
                  < chunk_size (source_without_storage 4 2))%Z) by (cbn; lia).
  assert (H2 : (0 < len (lit "abc"))%Z) by (vm_compute; reflexivity).
  repeat (split; [assumption|]).
  intros H.
  apply (proj1 (chunk_text_single_chunk_iff
                  (source_without_storage 4 2) (lit "abc") H1 H2)) in H.
  vm_compute in H. apply H. reflexivity.
Defined.

Lemma reconstruct_concat (stride : nat) (cs : list str) :
  (forall c, In c cs -> length c <= stride) ->
  reconstruct stride cs = concat cs.
Proof.
  induction cs as [|c [|c' rest] IH]; intros Hlen.
  - reflexivity.
  - cbn. now rewrite app_nil_r.
  - change (reconstruct stride (c :: c' :: rest))
      with (firstn stride c ++ reconstruct stride (c' :: rest)).
    rewrite IH by (intros x Hx; apply Hlen; now right).
    rewrite firstn_all2 by (apply Hlen; now left).
    reflexivity.
Qed.

Lemma reconstruct_all_windows {St} (self : BaseKnowledgeSource St)
    (text : str) :
  (0 <= chunk_overlap self < chunk_size self)%Z ->
  reconstruct (Z.to_nat (chunk_size self - chunk_overlap self))
    (map (window self text)
         (seq 0 (Z.to_nat (ceil_div (len text)
                             (chunk_size self - chunk_overlap self)))))
  = text.
Proof.
  intros HOC.
  pose proof (@ceil_div_spec (len text)
                (chunk_size self - chunk_overlap self)%Z ltac:(lia)) as Hceil.
  remember (ceil_div (len text) (chunk_size self - chunk_overlap self))
    as n eqn:En.
  destruct (Z.to_nat n) as [|m] eqn:Hm.
  - cbn [seq map reconstruct].
    assert (length text = 0) as H0 by (unfold len in Hceil; nia).
    destruct text; [reflexivity|discriminate].
  - rewrite reconstruct_windows; [reflexivity|assumption|].
    assert (Hmul : Z.of_nat ((0 + S m)
                             * Z.to_nat (chunk_size self - chunk_overlap self))
                   = (n * (chunk_size self - chunk_overlap self))%Z)
      by (rewrite Nat2Z.inj_mul, Z2Nat.id; lia).
    unfold len in Hceil. lia.
Qed.

(** X4. Without overlap ([chunk_overlap = 0], [chunk_size > 0]) the chunks
    partition the text: their concatenation is the text. *)
Theorem chunk_text_zero_overlap_partition {St}
    (self : BaseKnowledgeSource St) (text : str) :
  chunk_overlap self = 0%Z -> (0 < chunk_size self)%Z ->
  exists cs, _chunk_text self text = Ok cs /\ concat cs = text.
Proof.
  intros HO HC.
  assert (HOC : (0 <= chunk_overlap self < chunk_size self)%Z) by lia.
  eexists. split; [apply chunk_text_windows; exact HOC|].
  etransitivity; [|apply (reconstruct_all_windows self text HOC)].
  symmetry. apply reconstruct_concat.
  intros c Hin. apply in_map_iff in Hin as (k & <- & _).
  rewrite window_length by exact HOC. rewrite HO, Z.sub_0_r. lia.
Qed.

Lemma chunk_text_zero_overlap_partition_witness :
  chunk_overlap (source_without_storage 4 0) = 0%Z /\
  (0 < chunk_size (source_without_storage 4 0))%Z /\
  exists cs,
    _chunk_text (source_without_storage 4 0) (lit "abcdefghi") = Ok cs /\
    concat cs = lit "abcdefghi".
Proof.
  assert (H1 : chunk_overlap (source_without_storage 4 0) = 0%Z)
    by reflexivity.
  assert (H2 : (0 < chunk_size (source_without_storage 4 0))%Z)
    by (cbn; lia).
  repeat (split; [assumption|]).
  exact (chunk_text_zero_overlap_partition
           (source_without_storage 4 0) (lit "abcdefghi") H1 H2).
Defined.

(** X5. A zero [chunk_size] with a negative [chunk_overlap] passes the
    range with the positive step [- chunk_overlap]: the call returns
    [ceil (L / - chunk_overlap)] chunks and every one of them is empty. *)
Theorem chunk_text_zero_size {St} (self : BaseKnowledgeSource St)
    (text : str) :
  chunk_size self = 0%Z -> (chunk_overlap self < 0)%Z ->
  exists cs,
    _chunk_text self text = Ok cs /\
    len cs = ceil_div (len text) (- chunk_overlap self) /\
    forall c, In c cs -> c = [].
Proof.
  intros HC HO. unfold _chunk_text. rewrite HC.
  rewrite range_from_zero by (unfold len; lia).
  cbn [bind]. eexists. split; [reflexivity|].
  pose proof (@ceil_div_spec (len text) (0 - chunk_overlap self)%Z
                ltac:(lia)) as Hceil.
  split.
  - unfold len at 1. rewrite !length_map, length_seq.
    rewrite Z.sub_0_l. rewrite Z.sub_0_l in Hceil.
    unfold len in *. nia.
  - intros c Hin. apply in_map_iff in Hin as (i & <- & Hi).
    apply in_map_iff in Hi as (k & <- & _).
    rewrite slice_nonneg by nia.
    replace (Z.of_nat k * (0 - chunk_overlap self) + 0
             - Z.of_nat k * (0 - chunk_overlap self))%Z with 0%Z by lia.
    reflexivity.
Qed.

Lemma chunk_text_zero_size_witness :
  chunk_size (source_without_storage 0 (-2)) = 0%Z /\
  (chunk_overlap (source_without_storage 0 (-2)) < 0)%Z /\
  _chunk_text (source_without_storage 0 (-2)) (lit "abc") = Ok [[]; []].
Proof.
  assert (H1 : chunk_size (source_without_storage 0 (-2)) = 0%Z)
    by reflexivity.
  assert (H2 : (chunk_overlap (source_without_storage 0 (-2)) < 0)%Z)
    by (cbn; lia).
  repeat (split; [assumption|]).
  destruct (chunk_text_zero_size (source_without_storage 0 (-2)) (lit "abc")
              H1 H2) as (cs & Hcs & _).
  rewrite Hcs. vm_compute in Hcs. symmetry. exact Hcs.
Defined.

(* ================================================================== *)
(** * Further properties of [strip] and of the cache tool *)
(* ================================================================== *)

Lemma lstrip_hd (s : str) (c : char) :
  hd_error (lstrip s) = Some c -> isspace c = false.
Proof.
  induction s as [|x s IH]; cbn [lstrip]; [discriminate|].
  destruct (isspace x) eqn:E; [exact IH|].
  cbn. now intros [= <-].
Qed.

Lemma lstrip_suffix (s : str) : exists ws, blank ws /\ s = ws ++ lstrip s.
Proof.
  induction s as [|x s (ws & Hws & IH)]; cbn [lstrip].
  - exists []. split; [constructor|reflexivity].
  - destruct (isspace x) eqn:E.
    + exists (x :: ws). split; [now constructor|]. cbn. now f_equal.
    + exists []. split; [constructor|reflexivity].
Qed.

Lemma blank_rev (ws : str) : blank ws -> blank (rev ws).
Proof. apply Forall_rev. Qed.

Lemma rstrip_prefix (s : str) : exists ws, blank ws /\ s = rstrip s ++ ws.
Proof.
  destruct (lstrip_suffix (rev s)) as (ws & Hws & E).
  exists (rev ws). split; [now apply blank_rev|].
  unfold rstrip. rewrite <- rev_app_distr, <- E. now rewrite rev_involutive.
Qed.

Lemma strip_trimmed (s : str) : trimmed (strip s).
Proof.
  unfold strip. split; intros c Hc.
  - destruct (rstrip_prefix (lstrip s)) as (ws & _ & E).
    apply (lstrip_hd s). rewrite E.
    destruct (rstrip (lstrip s)); [discriminate|exact Hc].
  - unfold rstrip in Hc. rewrite rev_involutive in Hc.
    exact (lstrip_hd _ Hc).
Qed.

Lemma lstrip_blank_app (ws s : str) : blank ws -> lstrip (ws ++ s) = lstrip s.
Proof.
  induction 1 as [|x ws Hx _ IH]; [reflexivity|].
  cbn [app lstrip]. now rewrite Hx.
Qed.

Lemma lstrip_blank (ws : str) : blank ws -> lstrip ws = [].
Proof.
  intros H. rewrite <- (app_nil_r ws). now rewrite lstrip_blank_app.
Qed.

Lemma lstrip_nil_blank (s : str) : lstrip s = [] -> blank s.
Proof.
  induction s as [|x s IH]; cbn [lstrip]; [constructor|].
  destruct (isspace x) eqn:E; [|discriminate].
  intros H. constructor; [exact E|now apply IH].
Qed.

Lemma lstrip_app (s t : str) : lstrip s <> [] -> lstrip (s ++ t) = lstrip s ++ t.
Proof.
  induction s as [|x s IH]; cbn [lstrip app]; [contradiction|].
  destruct (isspace x); [exact IH|reflexivity].
Qed.

Lemma rstrip_app_blank (s ws : str) : blank ws -> rstrip (s ++ ws) = rstrip s.
Proof.
  intros H. unfold rstrip. rewrite rev_app_distr.
  now rewrite lstrip_blank_app by now apply blank_rev.
Qed.

(** White space around a string does not change what [strip] returns. *)
Lemma strip_padded (ws1 s ws2 : str) :
  blank ws1 -> blank ws2 -> strip (ws1 ++ s ++ ws2) = strip s.
Proof.
  intros H1 H2. unfold strip. rewrite lstrip_blank_app by assumption.
  destruct (lstrip s) as [|x t] eqn:E.
  - apply lstrip_nil_blank in E.
    rewrite lstrip_blank_app by assumption.
    now rewrite lstrip_blank.
  - rewrite lstrip_app by (rewrite E; discriminate).
    rewrite E. now apply rstrip_app_blank.
Qed.

Lemma Substring_nil (sep : str) : sep <> [] -> ~ Substring sep [].
Proof.
  intros Hsep (a & b & E). symmetry in E.
  apply app_eq_nil in E as [_ E]. apply app_eq_nil in E as [E _].
  contradiction.
Qed.

Lemma Substring_pad_left (sep ws s : str) :
  sep <> [] -> (forall c, In c sep -> isspace c = false) -> blank ws ->
  ~ Substring sep s -> ~ Substring sep (ws ++ s).
Proof.
  intros Hsep Hchars Hws Hs. induction Hws as [|x ws Hx _ IH]; [exact Hs|].
  change ((x :: ws) ++ s) with ([] ++ x :: (ws ++ s)).
  apply Substring_app_cons.
  - intros Hin. apply Hchars in Hin. congruence.
  - now apply Substring_nil.
  - exact IH.
Qed.

Lemma Substring_pad_right (sep ws s : str) :
  sep <> [] -> (forall c, In c sep -> isspace c = false) -> blank ws ->
  ~ Substring sep s -> ~ Substring sep (s ++ ws).
Proof.
  intros Hsep Hchars Hws Hs. destruct Hws as [|x ws Hx Hws].
  - now rewrite app_nil_r.
  - apply Substring_app_cons.
    + intros Hin. apply Hchars in Hin. congruence.
    + exact Hs.
    + rewrite <- (app_nil_r ws).
      apply Substring_pad_left; try assumption.
      now apply Substring_nil.
Qed.

Lemma tool_chars (c : char) : In c (lit "tool:") -> isspace c = false.
Proof. vm_compute. intuition (subst; reflexivity). Qed.

Lemma input_chars (c : char) : In c (lit "|input:") -> isspace c = false.
Proof. vm_compute. intuition (subst; reflexivity). Qed.

Lemma split_hd_tl (sep s : str) :
  sep <> [] -> split sep s = hd [] (split sep s) :: tl (split sep s).
Proof.
  intros Hsep. rewrite split_unfold by assumption.
  now destruct (find_sep sep s) as [[a b]|].
Qed.

(** [hit_cache] as a parser: the tool runs from the first "tool:" to the
    first "|input:" that follows it before any further "tool:", the input
    from there to the next "|input:", the next "tool:" or the end. *)
Lemma hit_cache_eval {CacheHandler Value : Type}
    (read : CacheHandler -> str -> str -> Value)
    (self : CacheTools CacheHandler) (key : str) :
  hit_cache read self key =
  match find_sep (lit "tool:") key with
  | None => Raise IndexError
  | Some (_, rest) =>
      match find_sep (lit "|input:") (hd [] (split (lit "tool:") rest)) with
      | None => Raise IndexError
      | Some (x, rest') =>
          Ok (read (cache_handler self) (strip x)
                   (strip (hd [] (split (lit "|input:") rest'))))
      end
  end.
Proof.
  unfold hit_cache. rewrite (split_unfold tool_nonempty key).
  destruct (find_sep (lit "tool:") key) as [[before rest]|]; [|reflexivity].
  rewrite (split_hd_tl rest tool_nonempty).
  cbn [index nth_error bind hd].
  set (seg := hd [] (split (lit "tool:") rest)).
  rewrite (split_unfold input_nonempty seg).
  destruct (find_sep (lit "|input:") seg) as [[x rest']|]; [|reflexivity].
  rewrite (split_hd_tl rest' input_nonempty).
  reflexivity.
Qed.

Lemma find_tool_after_clean_prefix (P R : str) :
  ~ Substring (lit "tool:") P ->
  find_sep (lit "tool:") (P ++ lit "tool:" ++ R) = Some (P, R).
Proof.
  intros HP.
  apply (@find_sep_after_clean_prefix 116%N (lit "ool:") P R); [|exact HP].
  vm_compute. intuition discriminate.
Qed.

Lemma find_input_after_clean_prefix (X R : str) :
  ~ Substring (lit "|input:") X ->
  find_sep (lit "|input:") (X ++ lit "|input:" ++ R) = Some (X, R).
Proof.
  intros HX.
  apply (@find_sep_after_clean_prefix 124%N (lit "input:") X R); [|exact HX].
  vm_compute. intuition discriminate.
Qed.

Lemma split_hd_no_sep (sep s : str) :
  sep <> [] -> ~ Substring sep s -> hd [] (split sep s) = s.
Proof. intros Hsep H. now rewrite split_no_sep. Qed.

(** X6. [hit_cache] has two outcomes only.  It returns the value that the
    cache handler reads when the key contains "tool:" and the text between
    the first "tool:" and the next one (or the end of the key) contains
    "|input:"; for every other key it raises [IndexError], and it raises no
    other exception. *)
Theorem hit_cache_outcomes {CacheHandler Value : Type}
    (read : CacheHandler -> str -> str -> Value)
    (self : CacheTools CacheHandler) (key : str) :
  let usable :=
    exists before rest,
      find_sep (lit "tool:") key = Some (before, rest) /\
      Substring (lit "|input:") (hd [] (split (lit "tool:") rest)) in
  (usable ->
   exists t i, hit_cache read self key = Ok (read (cache_handler self) t i)) /\
  (~ usable -> hit_cache read self key = Raise IndexError) /\
  (forall e, hit_cache read self key = Raise e -> e = IndexError).
Proof.
  cbv zeta. rewrite hit_cache_eval.
  destruct (find_sep (lit "tool:") key) as [[before rest]|] eqn:Ek.
  - destruct (find_sep (lit "|input:") (hd [] (split (lit "tool:") rest)))
      as [[x rest']|] eqn:Es.
    + split; [|split].
      * intros _. eexists _, _. reflexivity.
      * intros Hno. exfalso. apply Hno. exists before, rest.
        split; [reflexivity|].
        exists x, rest'. now apply find_sep_some.
      * discriminate.
    + apply find_sep_none_iff in Es. split; [|split].
      * intros (b & r & [= <- <-] & Hsub). contradiction.
      * reflexivity.
      * now intros e [= <-].
  - split; [|split].
    + intros (b & r & Hf & _). discriminate.
    + reflexivity.
    + now intros e [= <-].
Qed.

(** X7. Whatever precedes the first "tool:" of the key is ignored. *)
Theorem hit_cache_ignores_prefix {CacheHandler Value : Type}
    (read : CacheHandler -> str -> str -> Value)
    (self : CacheTools CacheHandler) (P R : str) :
  ~ Substring (lit "tool:") P ->
  hit_cache read self (P ++ lit "tool:" ++ R)
  = hit_cache read self (lit "tool:" ++ R).
Proof.
  intros HP. rewrite !hit_cache_eval.
  rewrite find_tool_after_clean_prefix by assumption.
  now rewrite find_sep_at_start.
Qed.

Lemma hit_cache_ignores_prefix_witness :
  ~ Substring (lit "tool:") (lit "Action: ") /\
  hit_cache echo_read echo_tools (lit "Action: tool:search|input:rocq")
  = Ok (lit "search", lit "rocq").
Proof.
  assert (H : ~ Substring (lit "tool:") (lit "Action: "))
    by (apply contains_false_iff; vm_compute; reflexivity).
  split; [exact H|].
  etransitivity;
    [exact (hit_cache_ignores_prefix echo_read echo_tools
              (lit "search|input:rocq") H)|].
  vm_compute. reflexivity.
Defined.

(** X8. A second "tool:" ends the key: for [X] and [Y] without delimiters,
    the key "tool:X|input:Ytool:Z" is read at ([X.strip()], [Y.strip()])
    whatever [Z] is. *)
Theorem hit_cache_ignores_second_tool {CacheHandler Value : Type}
    (read : CacheHandler -> str -> str -> Value)
    (self : CacheTools CacheHandler) (X Y Z : str) :
  ~ Substring (lit "tool:") X -> ~ Substring (lit "|input:") X ->
  ~ Substring (lit "tool:") Y -> ~ Substring (lit "|input:") Y ->
  hit_cache read self
    (lit "tool:" ++ X ++ lit "|input:" ++ Y ++ lit "tool:" ++ Z)
  = Ok (read (cache_handler self) (strip X) (strip Y)).
Proof.
  intros HtX HiX HtY HiY. rewrite hit_cache_eval, find_sep_at_start.
  replace (X ++ lit "|input:" ++ Y ++ lit "tool:" ++ Z)
    with ((X ++ lit "|input:" ++ Y) ++ lit "tool:" ++ Z)
    by now rewrite <- !app_assoc.
  rewrite (split_unfold tool_nonempty).
  rewrite find_tool_after_clean_prefix
    by now apply tool_not_across_input.
  cbn [hd]. rewrite find_input_after_clean_prefix by assumption.
  now rewrite split_hd_no_sep by (assumption || apply input_nonempty).
Qed.

Lemma hit_cache_ignores_second_tool_witness :
  ~ Substring (lit "tool:") (lit "search") /\
  ~ Substring (lit "|input:") (lit "search") /\
  ~ Substring (lit "tool:") (lit "rocq") /\
  ~ Substring (lit "|input:") (lit "rocq") /\
  hit_cache echo_read echo_tools
    (lit "tool:search|input:rocqtool:other|input:x")
  = Ok (lit "search", lit "rocq").
Proof.
  assert (H1 : ~ Substring (lit "tool:") (lit "search"))
    by (apply contains_false_iff; vm_compute; reflexivity).
  assert (H2 : ~ Substring (lit "|input:") (lit "search"))
    by (apply contains_false_iff; vm_compute; reflexivity).
  assert (H3 : ~ Substring (lit "tool:") (lit "rocq"))
    by (apply contains_false_iff; vm_compute; reflexivity).
  assert (H4 : ~ Substring (lit "|input:") (lit "rocq"))
    by (apply contains_false_iff; vm_compute; reflexivity).
  repeat (split; [assumption|]).
  exact (hit_cache_ignores_second_tool echo_read echo_tools
           (lit "other|input:x") H1 H2 H3 H4).
Defined.

(** X9. A second "|input:" ends the input: for [X] and [Y] without
    delimiters and [Z] without "tool:", the key "tool:X|input:Y|input:Z" is
    read at ([X.strip()], [Y.strip()]); [Z] is dropped. *)
Theorem hit_cache_truncates_input {CacheHandler Value : Type}
    (read : CacheHandler -> str -> str -> Value)
    (self : CacheTools CacheHandler) (X Y Z : str) :
  ~ Substring (lit "tool:") X -> ~ Substring (lit "|input:") X ->
  ~ Substring (lit "tool:") Y -> ~ Substring (lit "|input:") Y ->
  ~ Substring (lit "tool:") Z ->
  hit_cache read self
    (lit "tool:" ++ X ++ lit "|input:" ++ Y ++ lit "|input:" ++ Z)
  = Ok (read (cache_handler self) (strip X) (strip Y)).
Proof.
  intros HtX HiX HtY HiY HtZ. rewrite hit_cache_eval, find_sep_at_start.
  rewrite split_hd_no_sep;
    [|apply tool_nonempty
     |apply tool_not_across_input;
        [assumption|now apply tool_not_across_input]].
  rewrite find_input_after_clean_prefix by assumption.
  rewrite (split_unfold input_nonempty).
  now rewrite find_input_after_clean_prefix by assumption.
Qed.

Lemma hit_cache_truncates_input_witness :
  ~ Substring (lit "tool:") (lit "search") /\
  ~ Substring (lit "|input:") (lit "search") /\
  ~ Substring (lit "tool:") (lit "a") /\
  ~ Substring (lit "|input:") (lit "a") /\
  ~ Substring (lit "tool:") (lit "b") /\
  hit_cache echo_read echo_tools (lit "tool:search|input:a|input:b")
  = Ok (lit "search", lit "a").
Proof.
  assert (H1 : ~ Substring (lit "tool:") (lit "search"))
    by (apply contains_false_iff; vm_compute; reflexivity).
  assert (H2 : ~ Substring (lit "|input:") (lit "search"))
    by (apply contains_false_iff; vm_compute; reflexivity).
  assert (H3 : ~ Substring (lit "tool:") (lit "a"))
    by (apply contains_false_iff; vm_compute; reflexivity).
  assert (H4 : ~ Substring (lit "|input:") (lit "a"))
    by (apply contains_false_iff; vm_compute; reflexivity).
  assert (H5 : ~ Substring (lit "tool:") (lit "b"))
    by (apply contains_false_iff; vm_compute; reflexivity).
  repeat (split; [assumption|]).
  exact (hit_cache_truncates_input echo_read echo_tools H1 H2 H3 H4 H5).
Defined.

(** X10. The cache is never read with a padded name: whenever [hit_cache]
    returns, it returns [read(tool, input)] for a tool and an input that
    have no white space at either end. *)
Theorem hit_cache_reads_trimmed {CacheHandler Value : Type}
    (read : CacheHandler -> str -> str -> Value)
    (self : CacheTools CacheHandler) (key : str) (v : Value) :
  hit_cache read self key = Ok v ->
  exists t i, v = read (cache_handler self) t i /\ trimmed t /\ trimmed i.
Proof.
  rewrite hit_cache_eval.
  destruct (find_sep (lit "tool:") key) as [[before rest]|]; [|discriminate].
  destruct (find_sep (lit "|input:") (hd [] (split (lit "tool:") rest)))
    as [[x rest']|]; [|discriminate].
  intros [= <-]. eexists _, _.
  split; [reflexivity|]. split; apply strip_trimmed.
Qed.

Lemma hit_cache_reads_trimmed_witness :
  hit_cache echo_read echo_tools (lit "tool: search |input: rocq ")
    = Ok (lit "search", lit "rocq") /\
  exists t i, (lit "search", lit "rocq") = echo_read tt t i
              /\ trimmed t /\ trimmed i.
Proof.
  assert (H : hit_cache echo_read echo_tools (lit "tool: search |input: rocq ")
              = Ok (lit "search", lit "rocq")) by (vm_compute; reflexivity).
  split; [exact H|].
  exact (hit_cache_reads_trimmed echo_read echo_tools _ H).
Defined.

(** X11. White space around the tool name and around the input does not
    change the outcome: for [X] and [Y] without delimiters, the key with
    blank strings around [X] and around [Y] is read where the key
    "tool:X|input:Y" is read. *)
Theorem hit_cache_whitespace_insensitive {CacheHandler Value : Type}
    (read : CacheHandler -> str -> str -> Value)
    (self : CacheTools CacheHandler) (X Y w1 w2 w3 w4 : str) :
  ~ Substring (lit "tool:") X -> ~ Substring (lit "|input:") X ->
  ~ Substring (lit "tool:") Y -> ~ Substring (lit "|input:") Y ->
  blank w1 -> blank w2 -> blank w3 -> blank w4 ->
  hit_cache read self
    (lit "tool:" ++ (w1 ++ X ++ w2) ++ lit "|input:" ++ (w3 ++ Y ++ w4))
  = hit_cache read self (lit "tool:" ++ X ++ lit "|input:" ++ Y).
Proof.
  intros HtX HiX HtY HiY B1 B2 B3 B4.
  assert (Hpad : forall sep w s w',
             sep <> [] -> (forall c, In c sep -> isspace c = false) ->
             blank w -> blank w' -> ~ Substring sep s ->
             ~ Substring sep (w ++ s ++ w')).
  { intros sep w s w' Hsep Hc Bw Bw' Hs.
    apply Substring_pad_left; try assumption.
    now apply Substring_pad_right. }
  assert (Hclean : forall A B,
             ~ Substring (lit "tool:") A -> ~ Substring (lit "|input:") A ->
             ~ Substring (lit "tool:") B -> ~ Substring (lit "|input:") B ->
             hit_cache read self (lit "tool:" ++ A ++ lit "|input:" ++ B)
             = Ok (read (cache_handler self) (strip A) (strip B))).
  { intros A B HtA HiA HtB HiB. rewrite hit_cache_eval, find_sep_at_start.
    rewrite split_hd_no_sep
      by (apply tool_nonempty || now apply tool_not_across_input).
    rewrite find_input_after_clean_prefix by assumption.
    now rewrite split_hd_no_sep by (assumption || apply input_nonempty). }
  rewrite !Hclean; try assumption;
    try (apply Hpad; solve [assumption | apply tool_nonempty
                           | apply input_nonempty | apply tool_chars
                           | apply input_chars]).
  now rewrite !strip_padded by assumption.
Qed.

Lemma hit_cache_whitespace_insensitive_witness :
  ~ Substring (lit "tool:") (lit "search") /\
  ~ Substring (lit "|input:") (lit "search") /\
  ~ Substring (lit "tool:") (lit "rocq") /\
  ~ Substring (lit "|input:") (lit "rocq") /\
  blank (lit " ") /\ blank [] /\ blank [9%N; 32%N] /\ blank [10%N] /\
  hit_cache echo_read echo_tools
    (lit "tool:" ++ (lit " " ++ lit "search" ++ [])
     ++ lit "|input:" ++ ([9%N; 32%N] ++ lit "rocq" ++ [10%N]))
  = hit_cache echo_read echo_tools (lit "tool:search|input:rocq").
Proof.
  assert (H1 : ~ Substring (lit "tool:") (lit "search"))
    by (apply contains_false_iff; vm_compute; reflexivity).
  assert (H2 : ~ Substring (lit "|input:") (lit "search"))
    by (apply contains_false_iff; vm_compute; reflexivity).
  assert (H3 : ~ Substring (lit "tool:") (lit "rocq"))
    by (apply contains_false_iff; vm_compute; reflexivity).
  assert (H4 : ~ Substring (lit "|input:") (lit "rocq"))
    by (apply contains_false_iff; vm_compute; reflexivity).
  assert (B1 : blank (lit " ")) by (repeat constructor).
  assert (B2 : blank []) by constructor.
  assert (B3 : blank [9%N; 32%N]) by (repeat constructor).
  assert (B4 : blank [10%N]) by (repeat constructor).
  repeat (split; [assumption|]).
  exact (hit_cache_whitespace_insensitive echo_read echo_tools
           H1 H2 H3 H4 B1 B2 B3 B4).
Defined.

(* ================================================================== *)
(** * Further properties of the prompt builder *)
(* ================================================================== *)

Lemma replace_no_occurrence (old new s : str) :
  old <> [] -> ~ Substring old s -> replace old new s = s.
Proof.
  intros Hold Hno. rewrite replace_unfold by assumption.
  apply find_sep_none_iff in Hno. now rewrite Hno.
Qed.

Lemma assemble_prompt_missing_template (i18n_slice : str -> str)
    (components : list str) (st pt rt : option str) :
  str_truth st = false \/ str_truth pt = false ->
  _assemble_prompt i18n_slice components st pt rt
  = _assemble_prompt i18n_slice components None None None.
Proof.
  intros H. unfold _assemble_prompt.
  destruct st as [st|]; [|reflexivity].
  destruct pt as [pt|]; [|reflexivity].
  destruct H as [H|H]; rewrite H; [reflexivity|].
  cbn [negb]. now rewrite orb_true_r.
Qed.

(** X12. When [system_template] or [prompt_template] is missing or empty,
    all three templates are ignored: the prompt is the one built without
    templates, whatever the other two templates are. *)
Theorem build_prompt_missing_template (i18n_slice : str -> str)
    (agent_ : Agent) (components : list str) (st pt rt : option str) :
  str_truth st = false \/ str_truth pt = false ->
  _build_prompt i18n_slice agent_ components st pt rt
  = _build_prompt i18n_slice agent_ components None None None.
Proof.
  intros H. unfold _build_prompt.
  now rewrite (assemble_prompt_missing_template _ _ _ _ rt H).
Qed.

Lemma build_prompt_missing_template_witness :
  (str_truth (Some []) = false \/ str_truth (Some (lit "{{ .Prompt }}")) = false)
  /\
  _build_prompt sample_slice sample_agent [lit "role_playing"; lit "task"]
                (Some []) (Some (lit "{{ .Prompt }}")) (Some (lit "end"))
  = lit "<role_playing><task>".
Proof.
  assert (H : str_truth (Some []) = false
              \/ str_truth (Some (lit "{{ .Prompt }}")) = false)
    by (left; reflexivity).
  split; [exact H|].
  etransitivity;
    [exact (build_prompt_missing_template sample_slice sample_agent
              [lit "role_playing"; lit "task"] _ _ (Some (lit "end")) H)|].
  vm_compute. reflexivity.
Defined.

(** X13. [task_execution] always returns an entry "prompt", and that entry
    is the prompt built from the slices role_playing, tools or no_tools, and
    task with the templates of the object, in both shapes of the result; the
    entries "system" and "user" come before it exactly when both templates
    are missing or empty and [use_system_prompt] is true. *)
Theorem task_execution_entries (i18n_slice : str -> str) (self : Prompts) :
  let slices :=
    [lit "role_playing";
     if has_tools self then lit "tools" else lit "no_tools";
     lit "task"] in
  let split_mode :=
    negb (str_truth (system_template self))
    && negb (str_truth (prompt_template self))
    && bool_truth (use_system_prompt self) in
  dict_get (lit "prompt") (task_execution i18n_slice self)
  = Some (_build_prompt i18n_slice (agent self) slices
            (system_template self) (prompt_template self)
            (response_template self)) /\
  dict_keys (task_execution i18n_slice self)
  = (if split_mode then [lit "system"; lit "user"; lit "prompt"]
     else [lit "prompt"]).
Proof.
  cbv zeta. unfold task_execution.
  destruct (negb (str_truth (system_template self))) eqn:Es; cbn [andb].
  - destruct (negb (str_truth (prompt_template self))) eqn:Ep; cbn [andb].
    + destruct (bool_truth (use_system_prompt self)).
      * split; [|reflexivity].
        unfold dict_get. cbn [find fst snd].
        change (str_eqb (lit "system") (lit "prompt")) with false.
        change (str_eqb (lit "user") (lit "prompt")) with false.
        change (str_eqb (lit "prompt") (lit "prompt")) with true.
        cbv iota. f_equal. symmetry.
        unfold _build_prompt.
        rewrite (assemble_prompt_missing_template i18n_slice _
                   (system_template self) (prompt_template self)
                   (response_template self))
          by (left; now apply negb_true_iff).
        now destruct (has_tools self).
      * split; [|reflexivity].
        unfold dict_get. cbn [find fst snd].
        change (str_eqb (lit "prompt") (lit "prompt")) with true.
        cbv iota. now destruct (has_tools self).
    + split; [|reflexivity].
      unfold dict_get. cbn [find fst snd].
      change (str_eqb (lit "prompt") (lit "prompt")) with true.
      cbv iota. now destruct (has_tools self).
  - split; [|reflexivity].
    unfold dict_get. cbn [find fst snd].
    change (str_eqb (lit "prompt") (lit "prompt")) with true.
    cbv iota. now destruct (has_tools self).
Qed.

Lemma str_eqb_refl (a : str) : str_eqb a a = true.
Proof. unfold str_eqb. now destruct (list_eq_dec N.eq_dec a a). Qed.

(** X14. With both templates given, the "task" component is taken out of
    the system part and the task slice enters through the prompt template
    only: listing "task" among the components changes nothing. *)
Theorem build_prompt_task_component (i18n_slice : str -> str)
    (agent_ : Agent) (c1 c2 : list str) (st pt rt : option str) :
  str_truth st = true -> str_truth pt = true ->
  _build_prompt i18n_slice agent_ (c1 ++ [lit "task"] ++ c2) st pt rt
  = _build_prompt i18n_slice agent_ (c1 ++ c2) st pt rt.
Proof.
  intros Hs Hp. unfold _build_prompt, _assemble_prompt.
  destruct st as [st|]; [|discriminate].
  destruct pt as [pt|]; [|discriminate].
  rewrite Hs, Hp. cbn [negb orb].
  rewrite !filter_app. cbn [filter].
  rewrite str_eqb_refl. cbn [negb app]. reflexivity.
Qed.

Lemma build_prompt_task_component_witness :
  str_truth (Some (lit "S: {{ .System }}")) = true /\
  str_truth (Some (lit "P: {{ .Prompt }}")) = true /\
  _build_prompt sample_slice sample_agent
                ([lit "role_playing"] ++ [lit "task"] ++ [lit "tools"])
                (Some (lit "S: {{ .System }}"))
                (Some (lit "P: {{ .Prompt }}")) None
  = lit "S: <role_playing><tools>" ++ [nl] ++ lit "P: <task>".
Proof.
  assert (H1 : str_truth (Some (lit "S: {{ .System }}")) = true)
    by reflexivity.
  assert (H2 : str_truth (Some (lit "P: {{ .Prompt }}")) = true)
    by reflexivity.
  repeat (split; [assumption|]).
  etransitivity;
    [exact (build_prompt_task_component sample_slice sample_agent
              [lit "role_playing"] [lit "tools"] _ _ None H1 H2)|].
  vm_compute. reflexivity.
Defined.

Lemma find_sep_clean_before (sep s before rest : str) :
  sep <> [] -> find_sep sep s = Some (before, rest) ->
  ~ Substring sep before.
Proof.
  intros Hsep H (u & v & E).
  pose proof (@find_sep_some _ _ _ _ H) as Es.
  assert (Hs : s = u ++ sep ++ (v ++ sep ++ rest))
    by (rewrite Es, E, <- !app_assoc; reflexivity).
  pose proof (@find_sep_leftmost _ _ _ _ H u (v ++ sep ++ rest) Hs) as Hle.
  rewrite E, !length_app in Hle.
  destruct sep; [contradiction|cbn in Hle; lia].
Qed.

(** X15. Of the response template only the text before the first
    "{{ .Response }}" is used: with both other templates given, a response
    template that has a non-empty text [a] before the marker gives the
    prompt that the response template [a] alone gives. *)
Theorem build_prompt_response_tail (i18n_slice : str -> str)
    (agent_ : Agent) (components : list str) (st pt : option str)
    (rt a b : str) :
  str_truth st = true -> str_truth pt = true ->
  find_sep (lit "{{ .Response }}") rt = Some (a, b) -> a <> [] ->
  _build_prompt i18n_slice agent_ components st pt (Some rt)
  = _build_prompt i18n_slice agent_ components st pt (Some a).
Proof.
  intros Hs Hp Hf Ha.
  assert (Hm : lit "{{ .Response }}" <> []) by discriminate.
  assert (Hrt : str_truth (Some rt) = true).
  { apply find_sep_some in Hf. subst rt.
    destruct a; [contradiction|reflexivity]. }
  assert (Hat : str_truth (Some a) = true)
    by (destruct a; [contradiction|reflexivity]).
  unfold _build_prompt, _assemble_prompt.
  destruct st as [st|]; [|discriminate].
  destruct pt as [pt|]; [|discriminate].
  rewrite Hs, Hp, Hrt, Hat. cbn [negb orb].
  rewrite (split_unfold Hm rt), Hf.
  cbn [nth].
  rewrite (@split_no_sep _ Hm a)
    by exact (@find_sep_clean_before _ _ _ _ Hm Hf).
  reflexivity.
Qed.

Lemma build_prompt_response_tail_witness :
  str_truth (Some (lit "S: {{ .System }}")) = true /\
  str_truth (Some (lit "P: {{ .Prompt }}")) = true /\
  find_sep (lit "{{ .Response }}") (lit "R: {{ .Response }} done")
    = Some (lit "R: ", lit " done") /\
  lit "R: " <> [] /\
  _build_prompt sample_slice sample_agent [lit "role_playing"]
                (Some (lit "S: {{ .System }}"))
                (Some (lit "P: {{ .Prompt }}"))
                (Some (lit "R: {{ .Response }} done"))
  = lit "S: <role_playing>" ++ [nl] ++ lit "P: <task>" ++ [nl] ++ lit "R: ".
Proof.
  assert (H1 : str_truth (Some (lit "S: {{ .System }}")) = true)
    by reflexivity.
  assert (H2 : str_truth (Some (lit "P: {{ .Prompt }}")) = true)
    by reflexivity.
  assert (H3 : find_sep (lit "{{ .Response }}") (lit "R: {{ .Response }} done")
               = Some (lit "R: ", lit " done")) by (vm_compute; reflexivity).
  assert (H4 : lit "R: " <> []) by discriminate.
  repeat (split; [assumption|]).
  etransitivity;
    [exact (@build_prompt_response_tail sample_slice sample_agent
              [lit "role_playing"] _ _ _ _ _ H1 H2 H3 H4)|].
  vm_compute. reflexivity.
Defined.

(** X16. A template without placeholders passes through verbatim: when
    none of "{goal}", "{role}" and "{backstory}" occurs in the assembled
    template, [_build_prompt] returns it unchanged, whatever the agent. *)
Theorem build_prompt_without_placeholders (i18n_slice : str -> str)
    (agent_ : Agent) (components : list str) (st pt rt : option str) :
  let template := _assemble_prompt i18n_slice components st pt rt in
  ~ Substring (lit "{goal}") template ->
  ~ Substring (lit "{role}") template ->
  ~ Substring (lit "{backstory}") template ->
  _build_prompt i18n_slice agent_ components st pt rt = template.
Proof.
  intros template Hg Hr Hb. unfold _build_prompt. fold template.
  rewrite (@replace_no_occurrence (lit "{goal}")) by (assumption || discriminate).
  rewrite (@replace_no_occurrence (lit "{role}")) by (assumption || discriminate).
  now rewrite replace_no_occurrence by (assumption || discriminate).
Qed.

Lemma build_prompt_without_placeholders_witness :
  ~ Substring (lit "{goal}")
      (_assemble_prompt sample_slice [lit "role_playing"; lit "task"]
                        None None None) /\
  ~ Substring (lit "{role}")
      (_assemble_prompt sample_slice [lit "role_playing"; lit "task"]
                        None None None) /\
  ~ Substring (lit "{backstory}")
      (_assemble_prompt sample_slice [lit "role_playing"; lit "task"]
                        None None None) /\
  _build_prompt sample_slice sample_agent [lit "role_playing"; lit "task"]
                None None None
  = lit "<role_playing><task>".
Proof.
  assert (H1 : ~ Substring (lit "{goal}")
      (_assemble_prompt sample_slice [lit "role_playing"; lit "task"]
                        None None None))
    by (apply contains_false_iff; vm_compute; reflexivity).
  assert (H2 : ~ Substring (lit "{role}")
      (_assemble_prompt sample_slice [lit "role_playing"; lit "task"]
                        None None None))
    by (apply contains_false_iff; vm_compute; reflexivity).
  assert (H3 : ~ Substring (lit "{backstory}")
      (_assemble_prompt sample_slice [lit "role_playing"; lit "task"]
                        None None None))
    by (apply contains_false_iff; vm_compute; reflexivity).
  repeat (split; [assumption|]).
  etransitivity;
    [exact (build_prompt_without_placeholders sample_slice sample_agent
              [lit "role_playing"; lit "task"] None None None H1 H2 H3)|].
  vm_compute. reflexivity.
Defined.

(** X17. With both templates given, the slices of the components enter the
    prompt only where "{{ .System }}" stands in the system template: a
    system template without this marker gives the same prompt for every list
    of components. *)
Theorem build_prompt_without_system_marker (i18n_slice : str -> str)
    (agent_ : Agent) (components components' : list str)
    (st : str) (pt rt : option str) :
  str_truth (Some st) = true -> str_truth pt = true ->
  ~ Substring (lit "{{ .System }}") st ->
  _build_prompt i18n_slice agent_ components (Some st) pt rt
  = _build_prompt i18n_slice agent_ components' (Some st) pt rt.
Proof.
  intros Hs Hp Hno. unfold _build_prompt, _assemble_prompt.
  destruct pt as [pt|]; [|discriminate].
  rewrite Hs, Hp. cbn [negb orb].
  now rewrite !(@replace_no_occurrence (lit "{{ .System }}"))
    by (assumption || discriminate).
Qed.

Lemma build_prompt_without_system_marker_witness :
  str_truth (Some (lit "You are {role}.")) = true /\
  str_truth (Some (lit "P: {{ .Prompt }}")) = true /\
  ~ Substring (lit "{{ .System }}") (lit "You are {role}.") /\
  _build_prompt sample_slice sample_agent [lit "role_playing"; lit "tools"]
                (Some (lit "You are {role}."))
                (Some (lit "P: {{ .Prompt }}")) None
  = _build_prompt sample_slice sample_agent []
                (Some (lit "You are {role}."))
                (Some (lit "P: {{ .Prompt }}")) None.
Proof.
  assert (H1 : str_truth (Some (lit "You are {role}.")) = true)
    by reflexivity.
  assert (H2 : str_truth (Some (lit "P: {{ .Prompt }}")) = true)
    by reflexivity.
  assert (H3 : ~ Substring (lit "{{ .System }}") (lit "You are {role}."))
    by (apply contains_false_iff; vm_compute; reflexivity).
  repeat (split; [assumption|]).
  exact (build_prompt_without_system_marker sample_slice sample_agent
           [lit "role_playing"; lit "tools"] [] _ None H1 H2 H3).
Defined.

(* ================================================================== *)
(** * Properties of the RAG storage *)
(* ================================================================== *)

(** [split] undoes [join] when no part contains the separator and the
    first character of the separator does not occur again in it. *)
Lemma split_join (c : char) (t : str) (parts : list str) :
  ~ In c t -> parts <> [] ->
  (forall p, In p parts -> ~ Substring (c :: t) p) ->
  split (c :: t) (join (c :: t) parts) = parts.
Proof.
  intros Hc Hne Hclean.
  assert (Hsep : c :: t <> []) by discriminate.
  induction parts as [|p [|q rest] IH]; [contradiction| |].
  - cbn [join]. apply split_no_sep; [assumption|]. apply Hclean. now left.
  - change (join (c :: t) (p :: q :: rest))
      with (p ++ (c :: t) ++ join (c :: t) (q :: rest)).
    rewrite split_unfold by assumption.
    rewrite find_sep_after_clean_prefix
      by (assumption || (apply Hclean; now left)).
    f_equal. apply IH; [discriminate|].
    intros x Hx. apply Hclean. now right.
Qed.

(** X18. When the crew is set and true, has at least one agent, and no
    sanitized role contains an underscore, the [agents] attribute that
    [__init__] computes splits at "_" into the sanitized roles of the
    agents, in their order. *)
Theorem init_agents_round_trip {Crew EmbedderConfig : Type}
    (crew_truth : Crew -> bool) (crew_agent_roles : Crew -> list str)
    (_sanitize_role : str -> str)
    (type_ : str) (allow_reset_ : bool)
    (embedder_config_ : option EmbedderConfig) (c : Crew) :
  crew_truth c = true ->
  crew_agent_roles c <> [] ->
  (forall r, In r (crew_agent_roles c) ->
     ~ Substring (lit "_") (_sanitize_role r)) ->
  split (lit "_")
        (agents (__init__ crew_truth crew_agent_roles _sanitize_role
                          type_ allow_reset_ embedder_config_ (Some c)))
  = map _sanitize_role (crew_agent_roles c).
Proof.
  intros Ht Hne Hclean. cbn. rewrite Ht.
  apply (@split_join 95%N [] (map _sanitize_role (crew_agent_roles c))).
  - intros [].
  - destruct (crew_agent_roles c); [contradiction|discriminate].
  - intros p Hp. apply in_map_iff in Hp as (r & <- & Hr). now apply Hclean.
Qed.

Lemma init_agents_round_trip_witness :
  (fun _ : list str => true) [lit "data scientist"; lit "writer"] = true /\
  (fun roles : list str => roles) [lit "data scientist"; lit "writer"] <> [] /\
  (forall r,
     In r ((fun roles : list str => roles)
             [lit "data scientist"; lit "writer"]) ->
     ~ Substring (lit "_") (sample_sanitize r)) /\
  split (lit "_")
        (agents (__init__ (fun _ => true) (fun roles => roles) sample_sanitize
                          (lit "short_term") true (@None unit)
                          (Some [lit "data scientist"; lit "writer"])))
  = [lit "[data scientist]"; lit "[writer]"].
Proof.
  assert (H1 : (fun _ : list str => true)
                 [lit "data scientist"; lit "writer"] = true) by reflexivity.
  assert (H2 : (fun roles : list str => roles)
                 [lit "data scientist"; lit "writer"] <> []) by discriminate.
  assert (H3 : forall r,
     In r ((fun roles : list str => roles)
             [lit "data scientist"; lit "writer"]) ->
     ~ Substring (lit "_") (sample_sanitize r)).
  { intros r [<-|[<-|[]]]; apply contains_false_iff; vm_compute; reflexivity. }
  repeat (split; [assumption|]).
  exact (init_agents_round_trip (fun _ => true) (fun roles => roles)
           sample_sanitize (lit "short_term") true (@None unit)
           [lit "data scientist"; lit "writer"] H1 H2 H3).
Defined.

(** X19. [__init__] leaves [agents] empty in three cases that cannot be
    told apart afterwards: no crew, a crew object that is false, and a crew
    without agents. *)
Theorem init_agents_empty {Crew EmbedderConfig : Type}
    (crew_truth : Crew -> bool) (crew_agent_roles : Crew -> list str)
    (_sanitize_role : str -> str)
    (type_ : str) (allow_reset_ : bool)
    (embedder_config_ : option EmbedderConfig) (crew_ : option Crew) :
  (crew_ = None \/
   exists c, crew_ = Some c /\
             (crew_truth c = false \/ crew_agent_roles c = [])) ->
  agents (__init__ crew_truth crew_agent_roles _sanitize_role
                   type_ allow_reset_ embedder_config_ crew_) = [].
Proof.
  intros [->|(c & -> & [H|H])]; cbn.
  - reflexivity.
  - now rewrite H.
  - rewrite H. now destruct (crew_truth c).
Qed.

Lemma init_agents_empty_witness :
  ((Some (@nil str) = None \/
    exists c, Some (@nil str) = Some c /\
              ((fun _ : list str => true) c = false
               \/ (fun roles : list str => roles) c = []))) /\
  agents (__init__ (fun _ => true) (fun roles => roles) sample_sanitize
                   (lit "entities") true (@None unit) (Some [])) = [].
Proof.
  assert (H : Some (@nil str) = None \/
    exists c, Some (@nil str) = Some c /\
              ((fun _ : list str => true) c = false
               \/ (fun roles : list str => roles) c = [])).
  { right. exists []. split; [reflexivity|]. right. reflexivity. }
  split; [exact H|].
  exact (init_agents_empty (fun _ => true) (fun roles => roles)
           sample_sanitize (lit "entities") true (@None unit) H).
Defined.

(* ================================================================== *)
(** * Further properties of the converter *)
(* ================================================================== *)

Section FirstSuccess.

Variables Schema Model LLM : Type.
Variable llm_call : LLM -> str -> str -> str * LLM.
Variable model_validate_json : Schema -> str -> option Model.
Variable extract_json : Schema -> str -> option Model.
Variable failure_reason : Schema -> str -> str.
Variable self : Converter Schema LLM.

Local Abbreviation raw k l :=
  (raw_of_call llm_call (instructions self) (text self) k l).
Local Abbreviation after k l :=
  (llm_after_calls llm_call (instructions self) (text self) k l).

(** The answer [s] is accepted with the model [m]: by the strict parse, or
    by the lenient extraction after the strict parse failed. *)
Local Abbreviation accepts s m :=
  (model_validate_json (model self) s = Some m \/
   (model_validate_json (model self) s = None /\
    extract_json (model self) s = Some m)).

Lemma attempt_first_success (j : nat) :
  forall (retries : nat) (l : LLM) (log : list str) (m : Model),
    j <= retries ->
    (forall k, k < j ->
       model_validate_json (model self) (raw k l) = None /\
       extract_json (model self) (raw k l) = None) ->
    accepts (raw j l) m ->
    attempt llm_call model_validate_json extract_json failure_reason
            self retries l log =
    {| outcome := Ok m;
       llm_after := after (S j) l;
       raw_outputs := log ++ map (fun k => raw k l) (seq 0 (S j)) |}.
Proof.
  induction j as [|j IH]; intros retries l log m Hle Hfail Hacc.
  - unfold raw_of_call in Hacc. cbn [llm_after_calls] in Hacc.
    assert (Hstep :
      attempt llm_call model_validate_json extract_json failure_reason
              self retries l log =
      let '(r0, l1) := llm_call l (instructions self) (text self) in
      {| outcome := Ok m; llm_after := l1; raw_outputs := log ++ [r0] |}).
    { destruct retries; cbn [attempt];
        destruct (llm_call l (instructions self) (text self)) as [r0 l1];
        cbn [fst] in Hacc;
        destruct Hacc as [Hs|[Hs He]]; rewrite Hs; try rewrite He;
        reflexivity. }
    rewrite Hstep. unfold raw_of_call. cbn [llm_after_calls seq map].
    now destruct (llm_call l (instructions self) (text self)).
  - destruct retries as [|r]; [lia|].
    destruct (Hfail 0 (Nat.lt_0_succ _)) as [Hs He].
    unfold raw_of_call in Hs, He. cbn [llm_after_calls] in Hs, He.
    cbn [attempt].
    specialize (IH r (snd (llm_call l (instructions self) (text self)))
                   (log ++ [fst (llm_call l (instructions self) (text self))])
                   m ltac:(lia)).
    destruct (llm_call l (instructions self) (text self)) as [r0 l1] eqn:Ec.
    cbn [fst snd] in *. rewrite Hs, He.
    rewrite IH.
    + f_equal.
      * cbn [llm_after_calls]. now rewrite Ec.
      * rewrite <- app_assoc. f_equal.
        change (seq 0 (S (S j))) with (0 :: seq 1 (S j)).
        rewrite <- seq_shift. cbn [map app]. rewrite map_map. f_equal.
        -- unfold raw_of_call. cbn [llm_after_calls]. now rewrite Ec.
        -- apply map_ext. intros k. unfold raw_of_call.
           cbn [llm_after_calls]. now rewrite Ec.
    + intros k Hk. specialize (Hfail (S k) ltac:(lia)).
      unfold raw_of_call in *. cbn [llm_after_calls] in Hfail.
      now rewrite Ec in Hfail.
    + unfold raw_of_call in *. cbn [llm_after_calls] in Hacc.
      now rewrite Ec in Hacc.
Qed.

End FirstSuccess.

(** X20. In the model of [Converter.to_pydantic], on a backend without
    native structured output: when the answers of the first [j] completion
    calls fail both parsers and the next answer is accepted with a model
    [m], with [j] below the attempt limit, the result is [m] and exactly
    [j + 1] completion calls were made. *)
Theorem to_pydantic_returns_first_success {Schema Model LLM : Type}
    (llm_call : LLM -> str -> str -> str * LLM)
    (supports_function_calling : LLM -> bool)
    (instructor_to_pydantic : LLM -> Schema -> str -> result Model * LLM)
    (model_validate_json extract_json : Schema -> str -> option Model)
    (failure_reason : Schema -> str -> str)
    (self : Converter Schema LLM) (j : nat) (m : Model) :
  let raw k := raw_of_call llm_call (instructions self) (text self) k (llm self) in
  let r := to_pydantic llm_call supports_function_calling
                       instructor_to_pydantic model_validate_json
                       extract_json failure_reason self in
  supports_function_calling (llm self) = false ->
  j < Nat.max 1 (max_attempts self) ->
  (forall k, k < j ->
     model_validate_json (model self) (raw k) = None /\
     extract_json (model self) (raw k) = None) ->
  (model_validate_json (model self) (raw j) = Some m \/
   (model_validate_json (model self) (raw j) = None /\
    extract_json (model self) (raw j) = Some m)) ->
  outcome r = Ok m /\
  raw_outputs r = map raw (seq 0 (S j)) /\
  length (raw_outputs r) = S j.
Proof.
  intros raw r Hno Hj Hfail Hacc. subst r. unfold to_pydantic. rewrite Hno.
  rewrite (@attempt_first_success _ _ _ llm_call model_validate_json
             extract_json failure_reason self j _ _ _ m)
    by (assumption || lia).
  cbn [outcome raw_outputs app]. split; [reflexivity|].
  split; [reflexivity|]. now rewrite length_map, length_seq.
Qed.

Lemma to_pydantic_returns_first_success_witness :
  let self := scripted_converter
                [lit "Invalid JSON"; lit "Still invalid"; lit "{}"] 3 in
  let raw k := raw_of_call script_call (instructions self) (text self) k
                           (llm self) in
  (fun _ : list str => false) (llm self) = false /\
  2 < Nat.max 1 (max_attempts self) /\
  (forall k, k < 2 ->
     accept_braces (model self) (raw k) = None /\
     reject_text (model self) (raw k) = None) /\
  (accept_braces (model self) (raw 2) = Some (lit "{}") \/
   (accept_braces (model self) (raw 2) = None /\
    reject_text (model self) (raw 2) = Some (lit "{}"))) /\
  outcome (to_pydantic script_call (fun _ => false) script_instructor
                       accept_braces reject_text reason_invalid self)
    = Ok (lit "{}") /\
  length (raw_outputs
            (to_pydantic script_call (fun _ => false) script_instructor
                         accept_braces reject_text reason_invalid self)) = 3.
Proof.
  cbv zeta.
  set (self := scripted_converter
                 [lit "Invalid JSON"; lit "Still invalid"; lit "{}"] 3).
  assert (H1 : (fun _ : list str => false) (llm self) = false) by reflexivity.
  assert (H2 : 2 < Nat.max 1 (max_attempts self)) by (cbn; lia).
  assert (H3 : forall k, k < 2 ->
     accept_braces (model self)
       (raw_of_call script_call (instructions self) (text self) k (llm self))
       = None /\
     reject_text (model self)
       (raw_of_call script_call (instructions self) (text self) k (llm self))
       = None).
  { intros k Hk. destruct k as [|[|k]]; [split; reflexivity
                                        |split; reflexivity|lia]. }
  assert (H4 : accept_braces (model self)
       (raw_of_call script_call (instructions self) (text self) 2 (llm self))
       = Some (lit "{}") \/
     (accept_braces (model self)
        (raw_of_call script_call (instructions self) (text self) 2 (llm self))
        = None /\
      reject_text (model self)
        (raw_of_call script_call (instructions self) (text self) 2 (llm self))
        = Some (lit "{}"))) by (left; reflexivity).
  repeat (split; [assumption|]).
  destruct (to_pydantic_returns_first_success
              script_call (fun _ => false) script_instructor
              accept_braces reject_text reason_invalid self
              H1 H2 H3 H4) as (Ho & _ & Hl).
  split; [exact Ho|exact Hl].
Defined.
